(** * tdp-lib: service managers ([tdp/core/service_manager.py])

    A shallow embedding of [ServiceManager]: construction, the merge of the
    default variables of a service, the bootstrap of the service directories
    and the resolution of the components modified since a version. *)

From Stdlib Require Import Ascii String.
From stdpp Require Import gmap strings list fin_maps.

Open Scope string_scope.

(** ** Exceptions and fallible computations *)

(** The Python exceptions that the modelled code raises or lets through. *)
Inductive exn : Type :=
  | ValueError (msg : string)
  | KeyError (key : string)
  | NoVersionYet
  | FileExistsError (path : string)
  | NotADirectoryError (path : string)
  | AttributeError (attribute : string)
  | OtherError (msg : string).

Inductive result (A : Type) : Type :=
  | Ok (a : A)
  | Raise (e : exn).
Arguments Ok {A} a.
Arguments Raise {A} e.

Definition bind {A B : Type} (r : result A) (k : A -> result B) : result B :=
  match r with
  | Ok a => k a
  | Raise e => Raise e
  end.

Notation "x <~ c ;; k" := (bind c (fun x => k))
  (at level 100, c at next level, right associativity).

(** A [for] loop whose body may raise: the first exception leaves the loop. *)
Fixpoint for_each {A S : Type} (body : S -> A -> result S) (s : S) (l : list A)
  : result S :=
  match l with
  | [] => Ok s
  | a :: l' => s' <~ body s a ;; for_each body s' l'
  end.

Definition is_ok {A : Type} (r : result A) : bool :=
  match r with Ok _ => true | Raise _ => false end.

(** ** Strings and paths *)

(** [str.split(sep)] for a one-character separator. *)
Fixpoint split_on (sep : ascii) (s : string) : list string :=
  match s with
  | EmptyString => [EmptyString]
  | String c s' =>
      if Ascii.eqb c sep then EmptyString :: split_on sep s'
      else match split_on sep s' with
           | [] => [String c EmptyString]
           | w :: ws => String c w :: ws
           end
  end.

(** [Path(p).name] of a relative path as version control reports it: the
    text after the last slash. *)
Definition path_name (p : string) : string :=
  List.last (split_on "/" p) EmptyString.

(** [Path(p).stem]: the name without its last suffix.  [pathlib] takes
    [i = name.rfind('.')] and cuts at [i] when [0 < i < len(name) - 1],
    that is when the text before and the text after the last dot are both
    non-empty. *)
Definition stem (p : string) : string :=
  let name := path_name p in
  let parts := split_on "." name in
  let before := String.concat "." (removelast parts) in
  let after := List.last parts EmptyString in
  if (1 <? length parts)%nat && negb (String.eqb before "") && negb (String.eqb after "")
  then before else name.

(** ** Components and the dependency graph *)

(** Modelled from the spec: the class [Component] of [tdp.core.component] is
    not part of the sources.  Equality and set membership of components are
    by identifier, so a component is its identifier. *)
Record Component : Type := mkComponent { name : string }.

#[global] Instance Component_eq_dec : EqDecision Component.
Proof. solve_decision. Defined.

#[global] Instance Component_countable : Countable Component.
Proof. apply (inj_countable' name mkComponent). by intros []. Defined.

(** What [components_modified] asks of a component: its owning service, its
    action and whether it stands for the service as a whole. *)
Class ComponentAPI : Type := {
  service : Component -> string;
  action : Component -> string;
  is_service : Component -> bool
}.

(** Modelled from the spec: an identifier is [<service>_<action>] for the
    service as a whole and [<service>_<sub-unit>_<action>] for a sub-unit.
    The service is the text before the first underscore, the action the text
    after the last one, and the component is service-level when nothing lies
    between the two. *)
Definition spec_service (c : Component) : string :=
  List.hd EmptyString (split_on "_" (name c)).

Definition spec_action (c : Component) : string :=
  match split_on "_" (name c) with
  | _ :: (_ :: _) as rest => List.last rest EmptyString
  | _ => EmptyString
  end.

Definition spec_is_service (c : Component) : bool :=
  (length (split_on "_" (name c)) =? 2)%nat.

Definition spec_component : ComponentAPI :=
  {| service := spec_service; action := spec_action; is_service := spec_is_service |}.

(** [collection.get_service_default_vars(service)] gives the
    [(name, path)] pairs of the defaults a collection holds for a service. *)
Record Collection : Type := {
  get_service_default_vars : string -> list (string * string)
}.

(** The attributes of [Dag] that the service manager reads. *)
Record Dag : Type := {
  services : list string;
  services_components : gmap string (list Component);
  collections : list (string * Collection)
}.

(** ** ServiceManager *)

Definition SERVICE_NAME_MAX_LENGTH : nat := 15.

(** A repository object is a handle on a directory: the path it was made for.
    The path is kept as its components, innermost first. *)
Abbreviation Path := (list string).

Record ServiceManager : Type := {
  _name : string;
  _repo : Path;
  _dag : Dag
}.

(** [ServiceManager.__init__] *)
Definition ServiceManager_init (service_name : string) (repository : Path) (dag : Dag)
  : result ServiceManager :=
  if (SERVICE_NAME_MAX_LENGTH <? String.length service_name)%nat
  then Raise (ValueError (service_name ++ " is longer than 15"))
  else Ok {| _name := service_name; _repo := repository; _dag := dag |}.

(** ** Components modified since a version *)

Section ComponentsModified.
Context {component_api : ComponentAPI}.

(** [self._repo.files_modified(version)]: the repository class is not part
    of the sources, the files it reports are taken as given. *)
Variable files_modified : Path -> string -> result (list string).

(** [Component(Path(file_modified).stem + "_config")] *)
Definition candidate (file_modified : string) : Component :=
  mkComponent (stem file_modified ++ "_config").

Definition config_components (service_components : list Component) : list Component :=
  filter (fun c => action c = "config") service_components.

(** The body of the loop over [files_modified]. *)
Definition components_modified_step (dag : Dag) (components_modified : gset Component)
    (file_modified : string) : result (gset Component) :=
  let component := candidate file_modified in
  if is_service component then
    match services_components dag !! service component with
    | None => Raise (KeyError (service component))
    | Some service_components =>
        Ok (components_modified ∪ list_to_set (config_components service_components))
    end
  else Ok (components_modified ∪ {[ component ]}).

Definition components_modified_set (self : ServiceManager) (version : string)
  : result (gset Component) :=
  files <~ files_modified (_repo self) version ;;
  for_each (components_modified_step (_dag self)) ∅ files.

(** [ServiceManager.components_modified] *)
Definition components_modified (self : ServiceManager) (version : string)
  : result (list Component) :=
  components_modified <~ components_modified_set self version ;;
  Ok (elements components_modified).

End ComponentsModified.

(** ** Mappings of variables *)

Set Warnings "-register-all".

(** The content of a variables file: scalars, lists and nested mappings.  A
    mapping keeps its keys in insertion order, as a Python [dict] does. *)
Inductive value : Type :=
  | VInt (z : Z)
  | VStr (s : string)
  | VList (l : list value)
  | VDict (d : list (string * value)).

Definition dict : Type := list (string * value).

Section OrderedDict.
Context {V : Type}.

(** [d.get(key)], [None] when [key not in d]. *)
Fixpoint od_get (key : string) (d : list (string * V)) : option V :=
  match d with
  | [] => None
  | (k, v) :: d' => if String.eqb k key then Some v else od_get key d'
  end.

(** [d[key] = v]: a known key keeps its place, a new one goes last. *)
Fixpoint od_set (key : string) (v : V) (d : list (string * V)) : list (string * V) :=
  match d with
  | [] => [(key, v)]
  | (k, w) :: d' => if String.eqb k key then (k, v) :: d' else (k, w) :: od_set key v d'
  end.

Definition od_keys (d : list (string * V)) : list string := map fst d.
End OrderedDict.

(** [d.update(other)] *)
Definition dict_update (d other : dict) : dict :=
  fold_left (fun acc kv => od_set (fst kv) (snd kv) acc) other d.

Section MergeLoop.
Variable merge : value -> value -> value.

(** The loop of [merge_hash] over the items of [y], on a copy of [x]. *)
Fixpoint merge_items (x y : dict) {struct y} : dict :=
  match y with
  | [] => x
  | (key, y_value) :: y' =>
      let merged :=
        match od_get key x with
        | None => y_value
        | Some x_value => merge x_value y_value
        end in
      merge_items (od_set key merged x) y'
  end.
End MergeLoop.

(** Modelled from the spec: [merge_hash] of [ansible.utils.vars] is not part
    of the sources.  Two mappings under a shared key merge recursively; in
    every other case the value of the later mapping wins, lists included
    (they are replaced).  The result is a copy of [x] in which the items of
    [y] were written one after the other. *)
Fixpoint merge_value (x_value y_value : value) {struct y_value} : value :=
  match x_value, y_value with
  | VDict x, VDict y => VDict (merge_items merge_value x y)
  | _, _ => y_value
  end.

Definition merge_hash (x y : dict) : dict := merge_items merge_value x y.

(** [merge_collection_vars] *)
Definition merge_collection_vars (dict_a dict_b : dict) : dict := merge_hash dict_a dict_b.

(** Equality of mappings as Python compares them: the same keys with equal
    values, whatever the order of insertion. *)
Fixpoint value_eqb (a b : value) {struct a} : bool :=
  match a, b with
  | VInt z1, VInt z2 => Z.eqb z1 z2
  | VStr s1, VStr s2 => String.eqb s1 s2
  | VList l1, VList l2 =>
      (fix list_eqb (l1 l2 : list value) {struct l1} : bool :=
         match l1, l2 with
         | [], [] => true
         | v1 :: l1', v2 :: l2' => value_eqb v1 v2 && list_eqb l1' l2'
         | _, _ => false
         end) l1 l2
  | VDict d1, VDict d2 =>
      (length d1 =? length d2)%nat &&
      (fix all_in (d : dict) {struct d} : bool :=
         match d with
         | [] => true
         | (k, v) :: d' =>
             match od_get k d2 with
             | Some w => value_eqb v w
             | None => false
             end && all_in d'
         end) d1
  | _, _ => false
  end.

Definition dict_eqb (a b : dict) : bool := value_eqb (VDict a) (VDict b).

(** ** Directories and the repositories they hold *)

(** A revision: its message and the variable files written by its
    transaction. *)
Record Commit : Type := { message : string; files : list (string * dict) }.

(** A directory: the variable files at its top level and, once a repository
    was initialised in it, the revisions committed so far. *)
Record Directory : Type := {
  tree : list (string * dict);
  history : option (list Commit)
}.

Inductive node : Type :=
  | RegularFile
  | Dir (d : Directory).

Abbreviation filesystem := (gmap Path node).

Definition empty_directory : Directory := {| tree := []; history := None |}.

(** [str(path.absolute())] *)
Definition path_str (p : Path) : string :=
  "/" ++ String.concat "/" (rev p).

(** Code that acts on the file system: the state is threaded through and
    survives an exception. *)
Definition io (A : Type) : Type := filesystem -> result A * filesystem.

Definition io_ret {A : Type} (a : A) : io A := fun fs => (Ok a, fs).

Definition io_raise {A : Type} (e : exn) : io A := fun fs => (Raise e, fs).

Definition io_bind {A B : Type} (c : io A) (k : A -> io B) : io B :=
  fun fs =>
    match c fs with
    | (Ok a, fs') => k a fs'
    | (Raise e, fs') => (Raise e, fs')
    end.

Notation "x <- c ;; k" := (io_bind c (fun x => k))
  (at level 100, c at next level, right associativity).

Definition lift {A : Type} (r : result A) : io A := fun fs => (r, fs).

(** [try: c  except ...: handler]; the handler raises again what it does not
    catch. *)
Definition try_except {A : Type} (c : io A) (handler : exn -> io A) : io A :=
  fun fs =>
    match c fs with
    | (Ok a, fs') => (Ok a, fs')
    | (Raise e, fs') => handler e fs'
    end.

Fixpoint io_for_each {A S : Type} (body : S -> A -> io S) (s : S) (l : list A) : io S :=
  match l with
  | [] => io_ret s
  | a :: l' => s' <- body s a ;; io_for_each body s' l'
  end.

(** The directories that [mkdir(parents=True)] has to create, the outermost
    first; a regular file on the way is an error of the operating system. *)
Fixpoint makedirs (p : Path) (fs : filesystem) : result filesystem :=
  match p with
  | [] => Ok fs
  | _ :: parent =>
      match fs !! p with
      | Some (Dir _) => Ok fs
      | Some RegularFile => Raise (NotADirectoryError (path_str p))
      | None => fs' <~ makedirs parent fs ;; Ok (<[p := Dir empty_directory]> fs')
      end
  end.

(** [p.mkdir(parents=True)] *)
Definition mkdir_parents (p : Path) : io unit :=
  fun fs =>
    match fs !! p with
    | Some _ => (Raise (FileExistsError (path_str p)), fs)
    | None =>
        match makedirs p fs with
        | Ok fs' => (Ok tt, fs')
        | Raise e => (Raise e, fs)
        end
    end.

(** [p.is_dir()] *)
Definition is_dir (p : Path) : io bool :=
  fun fs => (Ok (match fs !! p with Some (Dir _) => true | _ => false end), fs).

(** Modelled from the spec: [GitRepository.init] is not part of the sources.
    It makes the directory a repository when it is not one yet and leaves an
    existing repository as it is. *)
Definition GitRepository_init (p : Path) : io Path :=
  fun fs =>
    match fs !! p with
    | Some (Dir d) =>
        match history d with
        | Some _ => (Ok p, fs)
        | None => (Ok p, <[p := Dir {| tree := tree d; history := Some [] |}]> fs)
        end
    | _ => (Raise (OtherError (path_str p ++ " is not a directory")), fs)
    end.

(** Modelled from the spec: [repository.current_version()] is not part of
    the sources.  It gives the current revision and raises [NoVersionYet]
    in a repository that was never committed to.  A revision is identified
    by its rank in the history. *)
Definition current_version (repo : Path) : io nat :=
  fun fs =>
    match fs !! repo with
    | Some (Dir {| history := Some (c :: h) |}) => (Ok (length (c :: h)), fs)
    | Some (Dir {| history := Some [] |}) => (Raise NoVersionYet, fs)
    | _ => (Raise (OtherError (path_str repo ++ " is not a repository")), fs)
    end.

Fixpoint map_result {A B : Type} (f : A -> result B) (l : list A) : result (list B) :=
  match l with
  | [] => Ok []
  | a :: l' => b <~ f a ;; bs <~ map_result f l' ;; Ok (b :: bs)
  end.

(** Modelled from the spec: [repository.validate] and
    [repository.open_var_files] are not part of the sources.  Together they
    open the named variable files of the repository (a file that does not
    exist yet opens empty), run the body on them and, when the body ends
    without an exception, write the files and commit them as one revision
    with the message.  When the body raises, nothing is written and no
    revision is made. *)
Definition validate_open_var_files (repo : Path) (msg : string) (names : list string)
    (body : list (string * dict) -> result (list (string * dict))) : io unit :=
  fun fs =>
    match fs !! repo with
    | Some (Dir {| tree := t; history := Some h |}) =>
        let configurations := map (fun n => (n, default [] (od_get n t))) names in
        match body configurations with
        | Ok written =>
            let t' := fold_left (fun acc kv => od_set (fst kv) (snd kv) acc) written t in
            let h' := (h ++ [{| message := msg; files := written |}])%list in
            (Ok tt, <[repo := Dir {| tree := t'; history := Some h' |}]> fs)
        | Raise e => (Raise e, fs)
        end
    | _ => (Raise (OtherError (path_str repo ++ " is not a repository")), fs)
    end.

(** ** Initialisation of the variables of a service *)

(** Modelled from the spec: the constant [YML_EXTENSION] of
    [tdp.core.collection] is not part of the sources; a variables file is
    named [<name>.<extension>]. *)
Definition YML_EXTENSION : string := ".yml".

Section Initialisation.
(** [Variables(path).open()] followed by [to_dict()]: the parsed content
    of a file of default variables, or the exception of the parser. *)
Variable load_variables : string -> result dict.

(** [default_var_paths.setdefault(name, []).append(path)] *)
Definition append_path (default_var_paths : list (string * option (list string)))
    (entry : string * string) : list (string * option (list string)) :=
  let (name, path) := entry in
  let paths := match od_get name default_var_paths with
               | Some (Some paths) => paths
               | _ => []
               end in
  od_set name (Some (paths ++ [path])%list) default_var_paths.

(** The first loop of [initialize_variables]: the paths of the default
    variables of every file name, collection after collection. *)
Definition collect_default_var_paths (self : ServiceManager)
  : list (string * option (list string)) :=
  fold_left
    (fun default_var_paths collection =>
       fold_left append_path
         (get_service_default_vars collection (_name self)) default_var_paths)
    (map snd (collections (_dag self))) [].

(** A service without default variables gets one key with no paths. *)
Definition default_var_paths_of (self : ServiceManager)
  : list (string * option (list string)) :=
  match collect_default_var_paths self with
  | [] => [(_name self ++ YML_EXTENSION, None)]
  | default_var_paths => default_var_paths
  end.

(** The inner loop: the defaults are merged in the order of their paths. *)
Definition merge_default_variables (default_variables_paths : list string) : result dict :=
  for_each
    (fun merge_result default_variables_path =>
       variables <~ load_variables default_variables_path ;;
       Ok (merge_collection_vars merge_result variables))
    [] default_variables_paths.

(** The body of the loop over the opened configurations. *)
Definition initialize_configuration
    (default_var_paths : list (string * option (list string)))
    (item : string * dict) : result (string * dict) :=
  let (configuration_file, configuration) := item in
  match od_get configuration_file default_var_paths with
  | Some (Some (path :: paths)) =>
      merge_result <~ merge_default_variables (path :: paths) ;;
      Ok (configuration_file, dict_update configuration merge_result)
  | Some _ => Ok (configuration_file, configuration)
  | None => Raise (KeyError configuration_file)
  end.

(** [ServiceManager.initialize_variables] *)
Definition initialize_variables (self : ServiceManager) : io unit :=
  let default_var_paths := default_var_paths_of self in
  validate_open_var_files (_repo self) (_name self ++ ": initial commit")
    (od_keys default_var_paths)
    (map_result (initialize_configuration default_var_paths)).

(** The property [ServiceManager.version] *)
Definition version (self : ServiceManager) : io nat := current_version (_repo self).

(** ** Bootstrap of the service managers *)

(** The directory of a service is made, or has to be a directory already. *)
Definition ensure_service_directory (service_directory : Path) : io unit :=
  try_except (mkdir_parents service_directory)
    (fun e =>
       match e with
       | FileExistsError _ =>
           directory <- is_dir service_directory ;;
           if directory : bool then io_ret tt
           else io_raise (ValueError (path_str service_directory ++ " should be a directory"))
       | _ => io_raise e
       end).

(** The body of the loop of [initialize_service_managers]. *)
Definition bootstrap_service (dag : Dag) (services_directory : Path)
    (service_managers : list (string * ServiceManager)) (service : string)
  : io (list (string * ServiceManager)) :=
  let service_directory := service :: services_directory in
  _ <- ensure_service_directory service_directory ;;
  repo <- GitRepository_init service_directory ;;
  service_manager <- lift (ServiceManager_init service repo dag) ;;
  _ <- try_except (_ <- version service_manager ;; io_ret tt)
         (fun e =>
            match e with
            | NoVersionYet => initialize_variables service_manager
            | _ => io_raise e
            end) ;;
  io_ret (od_set service service_manager service_managers).

(** [ServiceManager.initialize_service_managers] *)
Definition initialize_service_managers (dag : Dag) (services_directory : Path)
  : io (list (string * ServiceManager)) :=
  io_for_each (bootstrap_service dag services_directory) [] (services dag).

(** ** The [init] command *)

(** What [click.echo] prints. *)
Inductive line : Type :=
  | VersionLine (name : string) (version : nat)
  | InitializingLine (name : string).

(** The body of the loop of [init] over the service managers.  The
    handler of [NoVersionYet] calls [initiliaze_variables], which the
    class does not have. *)
Definition report_service (out : list line) (item : string * ServiceManager)
  : io (list line) :=
  let (name, service_manager) := item in
  try_except (v <- version service_manager ;; io_ret (out ++ [VersionLine name v])%list)
    (fun e =>
       match e with
       | NoVersionYet => io_raise (AttributeError "initiliaze_variables")
       | _ => io_raise e
       end).

(** [init], once the graph is loaded and the database is there. *)
Definition init (dag : Dag) (vars : Path) : io (list line) :=
  service_managers <- initialize_service_managers dag vars ;;
  io_for_each report_service [] service_managers.

End Initialisation.


(** ** Predicates and examples used by the statements *)

(** [s] does not contain the character [sep]. *)
Fixpoint no_char (sep : ascii) (s : string) : bool :=
  match s with
  | EmptyString => true
  | String c s' => negb (Ascii.eqb c sep) && no_char sep s'
  end.

(** An extension such as [yml]: not empty, without dot or slash. *)
Definition plain_extension (ext : string) : bool :=
  negb (String.eqb ext "") && no_char "." ext && no_char "/" ext.

(** The component is one of the components the graph holds for a service. *)
Definition in_graph (dag : Dag) (c : Component) : Prop :=
  exists s service_components,
    services_components dag !! s = Some service_components /\ c ∈ service_components.

(** What one modified file adds to the result of [components_modified]:
    the [config] components of the service of a service-level candidate,
    or the candidate itself. *)
Definition contributes {component_api : ComponentAPI} (dag : Dag)
    (file_modified : string) (c : Component) : Prop :=
  (is_service (candidate file_modified) = true /\
   exists service_components,
     services_components dag !! service (candidate file_modified) = Some service_components /\
     c ∈ service_components /\ action c = "config")
  \/ (is_service (candidate file_modified) = false /\ c = candidate file_modified).

(** A service-level candidate whose service the graph does not know. *)
Definition unknown_service {component_api : ComponentAPI} (dag : Dag)
    (file_modified : string) : Prop :=
  is_service (candidate file_modified) = true /\
  services_components dag !! service (candidate file_modified) = None.

(** The graph of the example: the service [hdfs] and its two components. *)
Definition hdfs_datanode_config : Component := mkComponent "hdfs_datanode_config".
Definition hdfs_namenode_config : Component := mkComponent "hdfs_namenode_config".

Definition hdfs_dag : Dag :=
  {| services := ["hdfs"];
     services_components := {[ "hdfs" := [hdfs_datanode_config; hdfs_namenode_config] ]};
     collections := [] |}.

Definition hdfs_manager : ServiceManager :=
  {| _name := "hdfs"; _repo := ["hdfs"; "vars"]; _dag := hdfs_dag |}.

(** The two sources of the merge example and a loader that knows them by
    the paths [A] and [B]. *)
Definition source_A : dict := [("a", VInt 1); ("b", VDict [("c", VInt 2)])].
Definition source_B : dict := [("b", VDict [("c", VInt 3); ("d", VInt 4)])].

Definition load_sources (path : string) : result dict :=
  if String.eqb path "A" then Ok source_A
  else if String.eqb path "B" then Ok source_B
  else Raise (OtherError (path ++ " cannot be parsed")).

Definition collection_A : Collection :=
  {| get_service_default_vars := fun _ => [("hdfs.yml", "A")] |}.
Definition collection_B : Collection :=
  {| get_service_default_vars := fun _ => [("hdfs.yml", "B")] |}.

(** A collection without default variables for any service. *)
Definition collection_bare : Collection :=
  {| get_service_default_vars := fun _ => [] |}.

Definition dag_of_collections (cs : list (string * Collection)) : Dag :=
  {| services := ["hdfs"]; services_components := ∅; collections := cs |}.

(** The directories above a path, the nearest first. *)
Fixpoint ancestors (p : Path) : list Path :=
  match p with
  | [] => []
  | _ :: parent => parent :: ancestors parent
  end.

(** No directory above the path is taken by a regular file. *)
Definition no_file_above (p : Path) (fs : filesystem) : bool :=
  forallb (fun q => match fs !! q with Some RegularFile => false | _ => true end)
    (ancestors p).

(** The directory at the path holds a repository with a revision. *)
Definition has_version (fs : filesystem) (p : Path) : bool :=
  match fs !! p with
  | Some (Dir {| history := Some (_ :: _) |}) => true
  | _ => false
  end.

(** The path is free, or holds a directory in which nothing was committed. *)
Definition without_version (fs : filesystem) (p : Path) : bool :=
  match fs !! p with
  | None => true
  | Some (Dir {| history := None |}) => true
  | Some (Dir {| history := Some [] |}) => true
  | _ => false
  end.

(** The manager that the bootstrap makes for a service. *)
Definition manager_of (dag : Dag) (services_directory : Path) (service : string)
  : ServiceManager :=
  {| _name := service; _repo := service :: services_directory; _dag := dag |}.

(** Every manager of the mapping is the manager of its service, and the
    repository it is bound to has a revision. *)
Definition managers_versioned (dag : Dag) (root : Path)
    (sms : list (string * ServiceManager)) (fs : filesystem) : Prop :=
  forall name sm, (name, sm) ∈ sms ->
    sm = manager_of dag root name /\ has_version fs (name :: root) = true.

(** A file system for the examples: [hdfs] was initialised before, the
    path of [yarn] is free and the path of [hive] is a regular file. *)
Definition hdfs_directory : Directory :=
  {| tree := [("hdfs.yml", source_A)];
     history := Some [{| message := "hdfs: initial commit";
                         files := [("hdfs.yml", source_A)] |}] |}.

Definition example_fs : filesystem :=
  <[ ["hive"; "vars"] := RegularFile ]>
    (<[ ["hdfs"; "vars"] := Dir hdfs_directory ]> (<[ ["vars"] := Dir empty_directory ]> ∅)).

Definition example_dag : Dag :=
  {| services := ["hdfs"; "yarn"];
     services_components := ∅;
     collections := [("bare", collection_bare)] |}.

Definition hive_dag : Dag :=
  {| services := ["hdfs"; "hive"];
     services_components := ∅;
     collections := [("bare", collection_bare)] |}.


(** ** Loading the service managers *)

Section LoadOnly.
(** The constructor [GitRepository(path)]: the class is not part of the
    sources, the repository object it gives for a path, or the exception it
    raises, is taken as given. *)
Variable GitRepository : Path -> result Path.

(** The body of the loop of [get_service_managers]. *)
Definition load_service (dag : Dag) (services_directory : Path)
    (service_managers : list (string * ServiceManager)) (service : string)
  : result (list (string * ServiceManager)) :=
  repo <~ GitRepository (service :: services_directory) ;;
  service_manager <~ ServiceManager_init service repo dag ;;
  Ok (od_set service service_manager service_managers).

(** [ServiceManager.get_service_managers] *)
Definition get_service_managers (dag : Dag) (services_directory : Path)
  : result (list (string * ServiceManager)) :=
  for_each (load_service dag services_directory) [] (services dag).

End LoadOnly.

(** ** More predicates for the statements *)

(** All the [(name, path)] pairs that the collections declare for the
    service of a manager, collection after collection. *)
Definition default_entries (self : ServiceManager) : list (string * string) :=
  concat (map (fun collection => get_service_default_vars collection (_name self))
              (map snd (collections (_dag self)))).

(** The paths declared for one file name, in the order of the entries. *)
Definition paths_for (name : string) (entries : list (string * string)) : list string :=
  map snd (filter (fun entry => fst entry = name) entries).

(** The paths collected so far for a file name. *)
Definition paths_of (name : string) (acc : list (string * option (list string)))
  : list string :=
  match od_get name acc with
  | Some (Some paths) => paths
  | _ => []
  end.

(** The mapping that holds the manager of every service of a list, each
    under its name. *)
Definition managers_of (dag : Dag) (root : Path) (l : list string)
    (service_managers : list (string * ServiceManager)) : list (string * ServiceManager) :=
  fold_left (fun acc s => od_set s (manager_of dag root s) acc) l service_managers.

(** What stays of an entry of the file system: a regular file stays a
    regular file, a directory stays a directory and keeps the revisions of
    its repository as the first revisions of its history. *)
Definition node_kept (n n' : node) : Prop :=
  match n, n' with
  | RegularFile, RegularFile => True
  | Dir d, Dir d' =>
      match history d with
      | Some h => exists later, history d' = Some (h ++ later)%list
      | None => True
      end
  | _, _ => False
  end.

Definition fs_kept (fs fs' : filesystem) : Prop :=
  forall q n, fs !! q = Some n -> exists n', fs' !! q = Some n' /\ node_kept n n'.

(** The name that [init] prints on a line. *)
Definition line_name (l : line) : string :=
  match l with
  | VersionLine name _ => name
  | InitializingLine name => name
  end.

(** * Properties *)

(** ** Splitting strings and the stem of a file name *)

Lemma split_on_not_nil (sep : ascii) (s : string) : split_on sep s <> [].
Proof.
  destruct s as [|c s]; simpl; [discriminate|].
  destruct (Ascii.eqb c sep); [discriminate|].
  destruct (split_on sep s); discriminate.
Qed.

Lemma split_on_no_char (sep : ascii) (s : string) :
  no_char sep s = true -> split_on sep s = [s].
Proof.
  induction s as [|c s IH]; simpl; [reflexivity|].
  destruct (Ascii.eqb c sep); simpl; [discriminate|].
  intros H. rewrite (IH H). reflexivity.
Qed.

Lemma split_on_app_sep (sep : ascii) (s t : string) :
  split_on sep (s ++ String sep t) = (split_on sep s ++ split_on sep t)%list.
Proof.
  induction s as [|c s IH]; simpl.
  - rewrite Ascii.eqb_refl. reflexivity.
  - destruct (Ascii.eqb c sep); [by rewrite IH|].
    rewrite IH. pose proof (split_on_not_nil sep s) as Hne.
    destruct (split_on sep s); [congruence|reflexivity].
Qed.

Lemma concat_split_on (sep : ascii) (s : string) :
  String.concat (String sep EmptyString) (split_on sep s) = s.
Proof.
  induction s as [|c s IH]; [reflexivity|].
  simpl split_on. pose proof (split_on_not_nil sep s) as Hne.
  destruct (Ascii.eqb c sep) eqn:Hc.
  - apply Ascii.eqb_eq in Hc as ->.
    destruct (split_on sep s) as [|w ws]; [congruence|].
    change (String.concat (String sep "") ("" :: w :: ws))
      with (String sep (String.concat (String sep "") (w :: ws))).
    by rewrite IH.
  - destruct (split_on sep s) as [|w ws]; [congruence|].
    destruct ws as [|x xs]; [simpl in *; by rewrite IH|].
    change (String.concat (String sep "") (String c w :: x :: xs))
      with (String c (String.concat (String sep "") (w :: x :: xs))).
    by rewrite IH.
Qed.

Lemma no_char_app (sep : ascii) (s t : string) :
  no_char sep (s ++ t) = no_char sep s && no_char sep t.
Proof.
  induction s as [|c s IH]; simpl; [reflexivity|].
  by rewrite IH, andb_assoc.
Qed.

(** The stem of [<s>.<ext>] is [s], for a name [s] without slash and an
    extension without dot. *)
Lemma stem_with_extension (s ext : string) :
  s <> "" -> no_char "/" s = true -> plain_extension ext = true ->
  stem (s ++ "." ++ ext) = s.
Proof.
  intros Hs Hslash Hext. unfold plain_extension in Hext.
  apply andb_true_iff in Hext as [Hext Hext_slash].
  apply andb_true_iff in Hext as [Hext_ne Hext_dot].
  unfold stem, path_name.
  rewrite (split_on_no_char "/" (s ++ "." ++ ext))
    by (rewrite no_char_app, Hslash; simpl; exact Hext_slash).
  cbn [List.last]. change (s ++ "." ++ ext) with (s ++ String "." ext).
  rewrite split_on_app_sep, (split_on_no_char "." ext Hext_dot).
  rewrite removelast_last, last_last, concat_split_on.
  rewrite length_app. simpl length.
  replace (1 <? length (split_on "." s) + 1)%nat with true.
  2:{ symmetry. apply Nat.ltb_lt. pose proof (split_on_not_nil "." s).
      destruct (split_on "." s); simpl; [congruence|lia]. }
  rewrite Hext_ne. apply String.eqb_neq in Hs. by rewrite Hs.
Qed.

(** ** Construction of a service manager *)

(** C6: a service name of more than 15 characters makes the construction
    of a [ServiceManager] fail with the [ValueError] of the length check; a
    name of at most 15 characters gives the manager of that name, bound to
    the repository and the graph it was given. *)
Theorem ServiceManager_init_name_length (service_name : string) (repository : Path) (dag : Dag) :
  ((15 < String.length service_name)%nat ->
   ServiceManager_init service_name repository dag
   = Raise (ValueError (service_name ++ " is longer than 15")))
  /\ ((String.length service_name <= 15)%nat ->
      ServiceManager_init service_name repository dag
      = Ok {| _name := service_name; _repo := repository; _dag := dag |}).
Proof.
  unfold ServiceManager_init, SERVICE_NAME_MAX_LENGTH. split; intros H.
  - apply Nat.ltb_lt in H. by rewrite H.
  - apply Nat.ltb_ge in H. by rewrite H.
Qed.

Lemma ServiceManager_init_name_length_witness :
  ServiceManager_init "hdfs_federation_" ["x"] hdfs_dag
  = Raise (ValueError "hdfs_federation_ is longer than 15")
  /\ ServiceManager_init "hdfs_federation" ["x"] hdfs_dag
     = Ok {| _name := "hdfs_federation"; _repo := ["x"]; _dag := hdfs_dag |}.
Proof.
  split.
  - apply (proj1 (ServiceManager_init_name_length "hdfs_federation_" ["x"] hdfs_dag)).
    simpl. lia.
  - apply (proj2 (ServiceManager_init_name_length "hdfs_federation" ["x"] hdfs_dag)).
    simpl. lia.
Defined.

(** ** Resolution of the modified components *)

Section ComponentsModifiedFacts.
Context {component_api : ComponentAPI}.

Lemma step_ok_elem (dag : Dag) (acc s : gset Component) (f : string) :
  components_modified_step dag acc f = Ok s ->
  forall c, c ∈ s <-> c ∈ acc \/ contributes dag f c.
Proof.
  unfold components_modified_step, contributes, config_components.
  destruct (is_service (candidate f)) eqn:Hs.
  - destruct (services_components dag !! service (candidate f)) as [cs|] eqn:Hl;
      [|discriminate].
    intros [= <-] c. rewrite elem_of_union, elem_of_list_to_set, list_elem_of_filter.
    split; [intros [?|[? ?]]|intros [?|[[_ (cs' & [= <-] & ? & ?)]|[? _]]]];
      eauto 10; congruence.
  - intros [= <-] c. rewrite elem_of_union, elem_of_singleton.
    split; [intros [?|?]|intros [?|[[? _]|[_ ?]]]]; eauto; congruence.
Qed.

Lemma step_raise (dag : Dag) (acc : gset Component) (f : string) (e : exn) :
  components_modified_step dag acc f = Raise e ->
  unknown_service dag f /\ e = KeyError (service (candidate f)).
Proof.
  unfold components_modified_step, unknown_service.
  destruct (is_service (candidate f)); [|discriminate].
  destruct (services_components dag !! service (candidate f)); [discriminate|].
  by intros [= <-].
Qed.

Lemma step_unknown (dag : Dag) (acc : gset Component) (f : string) :
  unknown_service dag f ->
  components_modified_step dag acc f = Raise (KeyError (service (candidate f))).
Proof.
  unfold components_modified_step. intros [-> ->]. reflexivity.
Qed.

Lemma loop_ok_elem (dag : Dag) (files : list string) :
  forall (acc s : gset Component),
    for_each (components_modified_step dag) acc files = Ok s ->
    forall c, c ∈ s <-> c ∈ acc \/ exists f, f ∈ files /\ contributes dag f c.
Proof.
  induction files as [|f files IH]; simpl; intros acc s Hrun c.
  - injection Hrun as <-. split; [by left|].
    intros [?|(f & Hf & _)]; [done|]. by apply elem_of_nil in Hf.
  - destruct (components_modified_step dag acc f) as [acc'|e] eqn:Hstep;
      simpl in Hrun; [|discriminate].
    rewrite (IH _ _ Hrun c), (step_ok_elem _ _ _ _ Hstep c). split.
    + intros [[?|?]|(g & Hg & ?)]; [by left|right; exists f|right; exists g];
        split; try done; [by left|by right].
    + intros [?|(g & Hg & Hc)]; [by left; left|].
      apply elem_of_cons in Hg as [->|Hg]; [by left; right|].
      right. by exists g.
Qed.

Lemma loop_raise (dag : Dag) (files : list string) (e : exn) :
  forall acc : gset Component,
    for_each (components_modified_step dag) acc files = Raise e ->
    exists f, f ∈ files /\ unknown_service dag f /\ e = KeyError (service (candidate f)).
Proof.
  induction files as [|f files IH]; simpl; intros acc Hrun; [discriminate|].
  destruct (components_modified_step dag acc f) as [acc'|e'] eqn:Hstep; simpl in Hrun.
  - destruct (IH _ Hrun) as (g & Hg & ?). exists g. split; [by right|done].
  - injection Hrun as ->. exists f. split; [by left|]. by eapply step_raise.
Qed.

Lemma loop_unknown (dag : Dag) (files : list string) (f : string) :
  f ∈ files -> unknown_service dag f ->
  forall acc : gset Component,
    is_ok (for_each (components_modified_step dag) acc files) = false.
Proof.
  intros Hf Hu. induction files as [|g files IH]; intros acc; simpl.
  - by apply elem_of_nil in Hf.
  - destruct (components_modified_step dag acc g) as [acc'|e] eqn:Hstep; [|done].
    simpl. apply elem_of_cons in Hf as [->|Hf]; [|by apply IH].
    rewrite (step_unknown _ _ _ Hu) in Hstep. discriminate.
Qed.

End ComponentsModifiedFacts.

Lemma contributes_in_graph {component_api : ComponentAPI} (dag : Dag) (f : string)
    (c : Component) :
  contributes dag f c ->
  (in_graph dag c /\ action c = "config")
  \/ (is_service (candidate f) = false /\ c = candidate f).
Proof.
  intros [[_ (cs & Hl & Hc & Ha)]|H]; [left|by right].
  split; [|done]. by exists (service (candidate f)), cs.
Qed.

(** C1: when the only modified file has a service-level stem, the result of
    [components_modified] is, without repetition, exactly the components of
    that service whose action is [config]; when the stem names a sub-unit,
    the result is the single candidate [<stem>_config].  With the service
    [hdfs] and its components [hdfs_datanode_config] and
    [hdfs_namenode_config], the file [hdfs.<ext>] gives both components and
    the file [hdfs_datanode.<ext>] gives [hdfs_datanode_config] only. *)
Theorem components_modified_expansion :
  (forall (component_api : ComponentAPI)
          (files_modified : Path -> string -> result (list string))
          (self : ServiceManager) (version f : string),
      files_modified (_repo self) version = Ok [f] ->
      (is_service (candidate f) = true ->
       forall service_components,
         services_components (_dag self) !! service (candidate f) = Some service_components ->
         exists l,
           components_modified files_modified self version = Ok l /\ NoDup l /\
           forall c, c ∈ l <-> c ∈ service_components /\ action c = "config")
      /\ (is_service (candidate f) = false ->
          components_modified files_modified self version = Ok [candidate f]))
  /\ (forall (files_modified : Path -> string -> result (list string))
             (version ext : string),
        plain_extension ext = true ->
        (files_modified (_repo hdfs_manager) version = Ok ["hdfs." ++ ext] ->
         exists l,
           @components_modified spec_component files_modified hdfs_manager version = Ok l /\
           l ≡ₚ [hdfs_datanode_config; hdfs_namenode_config])
        /\ (files_modified (_repo hdfs_manager) version = Ok ["hdfs_datanode." ++ ext] ->
            @components_modified spec_component files_modified hdfs_manager version
            = Ok [hdfs_datanode_config])).
Proof.
  split.
  - intros api fm self version f Hfiles.
    unfold components_modified, components_modified_set. rewrite Hfiles. simpl.
    unfold components_modified_step. split.
    + intros -> cs ->. simpl. eexists. split; [reflexivity|].
      split; [apply NoDup_elements|]. intros c.
      rewrite elem_of_elements, elem_of_union, elem_of_list_to_set.
      unfold config_components. rewrite list_elem_of_filter, elem_of_empty. tauto.
    + intros ->. simpl. by rewrite (left_id_L ∅ (∪)), elements_singleton.
  - intros fm version ext Hext.
    assert (Hstem1 : stem ("hdfs." ++ ext) = "hdfs")
      by (by apply (stem_with_extension "hdfs" ext)).
    assert (Hstem2 : stem ("hdfs_datanode." ++ ext) = "hdfs_datanode")
      by (by apply (stem_with_extension "hdfs_datanode" ext)).
    split; intros Hfiles;
      unfold components_modified, components_modified_set; rewrite Hfiles; simpl;
      unfold components_modified_step, candidate.
    + rewrite Hstem1. eexists. split; [vm_compute; reflexivity|].
      apply perm_swap.
    + rewrite Hstem2. vm_compute. reflexivity.
Qed.

Lemma components_modified_expansion_witness :
  @components_modified spec_component (fun _ _ => Ok ["hdfs_datanode.yml"]) hdfs_manager "v1"
  = Ok [hdfs_datanode_config].
Proof.
  apply (proj2 (proj2 components_modified_expansion
           (fun _ _ => Ok ["hdfs_datanode.yml"]) "v1" "yml" eq_refl)).
  reflexivity.
Defined.

(** C2, as stated, fails: the candidate of a file whose stem names a
    sub-unit is returned as it was built.  For [foo_bar.yml] the result is
    the component [foo_bar_config], whose service [foo] the graph does not
    know and which is not a component of the graph. *)
Lemma components_modified_returns_unknown_component :
  @components_modified spec_component (fun _ _ => Ok ["foo_bar.yml"]) hdfs_manager "v1"
  = Ok [mkComponent "foo_bar_config"]
  /\ services_components hdfs_dag !! @service spec_component (mkComponent "foo_bar_config")
     = None
  /\ ~ in_graph hdfs_dag (mkComponent "foo_bar_config").
Proof.
  split; [reflexivity|]. split; [reflexivity|].
  intros (s & cs & Hl & Hc). unfold hdfs_dag in Hl. simpl in Hl.
  apply lookup_singleton_Some in Hl as [_ <-].
  repeat (apply elem_of_cons in Hc as [Hc|Hc]; [discriminate|]).
  by apply elem_of_nil in Hc.
Qed.

(** C2, amended: [components_modified] fails exactly when the repository
    cannot list the modified files or when a modified file gives a
    service-level candidate whose service is not a key of the graph, and
    then with the [KeyError] of that lookup.  When it returns, every
    component of the result is a [config] component of the graph (from the
    expansion of a service-level candidate) or the candidate of a modified
    file that is not service-level, returned without a lookup in the
    graph. *)
Theorem components_modified_outcome (component_api : ComponentAPI)
    (files_modified : Path -> string -> result (list string))
    (self : ServiceManager) (version : string) :
  match components_modified files_modified self version with
  | Ok l =>
      exists files,
        files_modified (_repo self) version = Ok files /\
        (forall f, f ∈ files -> ~ unknown_service (_dag self) f) /\
        forall c, c ∈ l ->
          (in_graph (_dag self) c /\ action c = "config")
          \/ exists f, f ∈ files /\ is_service (candidate f) = false /\ c = candidate f
  | Raise e =>
      files_modified (_repo self) version = Raise e
      \/ exists files f,
           files_modified (_repo self) version = Ok files /\ f ∈ files /\
           unknown_service (_dag self) f /\ e = KeyError (service (candidate f))
  end.
Proof.
  unfold components_modified, components_modified_set.
  destruct (files_modified (_repo self) version) as [files|e] eqn:Hfiles; simpl;
    [|by left].
  destruct (for_each (components_modified_step (_dag self)) ∅ files) as [s|e] eqn:Hrun;
    simpl.
  - exists files. split; [done|]. split.
    + intros f Hf Hu. pose proof (loop_unknown _ _ _ Hf Hu ∅) as Hko.
      by rewrite Hrun in Hko.
    + intros c Hc. apply elem_of_elements in Hc.
      apply (loop_ok_elem _ _ _ _ Hrun) in Hc as [Hc|(f & Hf & Hc)];
        [by apply not_elem_of_empty in Hc|].
      apply contributes_in_graph in Hc as [?|[? ?]]; [by left|right; by exists f].
  - right. apply loop_raise in Hrun as (f & Hf & Hu & ->). by exists files, f.
Qed.

(** C9: the list returned by [components_modified] has no repeated
    element, whatever the modified files; a component that several files
    contribute is listed once. *)
Theorem components_modified_no_duplicates (component_api : ComponentAPI)
    (files_modified : Path -> string -> result (list string))
    (self : ServiceManager) (version : string) (l : list Component) :
  components_modified files_modified self version = Ok l -> NoDup l.
Proof.
  unfold components_modified.
  destruct (components_modified_set files_modified self version); simpl; [|discriminate].
  intros [= <-]. apply NoDup_elements.
Qed.

Lemma components_modified_no_duplicates_witness :
  @components_modified spec_component
     (fun _ _ => Ok ["hdfs.yml"; "hdfs_datanode.yml"; "hdfs_namenode.yml"]) hdfs_manager "v1"
  = Ok [hdfs_namenode_config; hdfs_datanode_config]
  /\ NoDup [hdfs_namenode_config; hdfs_datanode_config].
Proof.
  split; [reflexivity|].
  apply (components_modified_no_duplicates spec_component
           (fun _ _ => Ok ["hdfs.yml"; "hdfs_datanode.yml"; "hdfs_namenode.yml"])
           hdfs_manager "v1").
  reflexivity.
Defined.

(** ** The merge of default variables *)

Section OrderedDictFacts.
Context {V : Type}.

Lemma od_get_set_eq (key : string) (v : V) (d : list (string * V)) :
  od_get key (od_set key v d) = Some v.
Proof.
  induction d as [|[k w] d IH]; simpl.
  - by rewrite String.eqb_refl.
  - destruct (String.eqb k key) eqn:Hk; simpl; by rewrite Hk.
Qed.

Lemma od_get_set_ne (key key' : string) (v : V) (d : list (string * V)) :
  key <> key' -> od_get key' (od_set key v d) = od_get key' d.
Proof.
  intros Hne. induction d as [|[k w] d IH]; simpl.
  - apply String.eqb_neq in Hne. by rewrite Hne.
  - destruct (String.eqb k key) eqn:Hk; simpl; [|by rewrite IH].
    apply String.eqb_eq in Hk as ->. apply String.eqb_neq in Hne. by rewrite Hne.
Qed.

Lemma od_get_not_key (key : string) (d : list (string * V)) :
  key ∉ od_keys d -> od_get key d = None.
Proof.
  induction d as [|[k w] d IH]; simpl; [done|].
  rewrite not_elem_of_cons. intros [Hne Hd].
  destruct (String.eqb_spec k key); [congruence|by apply IH].
Qed.

End OrderedDictFacts.

(** A key of the later mapping is merged with what the earlier mapping has
    for it; the other keys of the earlier mapping stay. *)
Lemma merge_items_get (merge : value -> value -> value) (y : dict) :
  NoDup (od_keys y) ->
  forall (x : dict) (key : string),
    od_get key (merge_items merge x y) =
    match od_get key y with
    | None => od_get key x
    | Some y_value =>
        Some (match od_get key x with
              | Some x_value => merge x_value y_value
              | None => y_value
              end)
    end.
Proof.
  induction y as [|[k y_value] y IH]; simpl; intros Hnd x key; [done|].
  apply NoDup_cons in Hnd as [Hk Hnd]. rewrite (IH Hnd).
  destruct (String.eqb_spec k key) as [->|Hne].
  - rewrite (od_get_not_key key y Hk), od_get_set_eq.
    by destruct (od_get key x).
  - by rewrite (od_get_set_ne k key _ x Hne).
Qed.

Lemma for_each_app {A S : Type} (body : S -> A -> result S) (l1 l2 : list A) :
  forall s : S,
    for_each body s (l1 ++ l2)%list = (s' <~ for_each body s l1 ;; for_each body s' l2).
Proof.
  induction l1 as [|a l1 IH]; intros s; simpl; [done|].
  destruct (body s a); simpl; [apply IH|done].
Qed.

(** C3: the merge of two mappings is recursive on the keys under which both
    hold a mapping, and the value of the later mapping wins everywhere
    else; the keys of the earlier mapping alone are kept and those of the
    later alone are added.  Merging [{a:1, b:{c:2}}] and then
    [{b:{c:3, d:4}}], as the initialisation does, gives
    [{a:1, b:{c:3, d:4}}]. *)
Theorem merge_recursive_later_wins :
  (forall (x y : dict) (key : string),
      NoDup (od_keys y) ->
      od_get key (merge_collection_vars x y) =
      match od_get key y with
      | None => od_get key x
      | Some y_value =>
          Some (match od_get key x with
                | Some x_value => merge_value x_value y_value
                | None => y_value
                end)
      end)
  /\ (forall x y : dict, merge_value (VDict x) (VDict y) = VDict (merge_collection_vars x y))
  /\ (forall x_value y_value : value,
        (forall x y, x_value = VDict x -> y_value = VDict y -> False) ->
        merge_value x_value y_value = y_value)
  /\ merge_collection_vars (merge_collection_vars [] source_A) source_B
     = [("a", VInt 1); ("b", VDict [("c", VInt 3); ("d", VInt 4)])]
  /\ merge_default_variables load_sources ["A"; "B"]
     = Ok [("a", VInt 1); ("b", VDict [("c", VInt 3); ("d", VInt 4)])].
Proof.
  split; [|split; [|split; [|split]]]; try reflexivity.
  - intros x y key Hnd. by apply merge_items_get.
  - intros [] [] H; try reflexivity. by destruct (H d d0).
Qed.

Lemma merge_recursive_later_wins_witness :
  od_get "b" (merge_collection_vars source_A source_B)
  = Some (VDict [("c", VInt 3); ("d", VInt 4)])
  /\ od_get "a" (merge_collection_vars source_A source_B) = Some (VInt 1).
Proof.
  assert (Hnd : NoDup (od_keys source_B)).
  { apply NoDup_cons. split; [apply not_elem_of_nil|apply NoDup_nil_2]. }
  split.
  - rewrite (proj1 merge_recursive_later_wins source_A source_B "b" Hnd). reflexivity.
  - rewrite (proj1 merge_recursive_later_wins source_A source_B "a" Hnd). reflexivity.
Defined.

(** C7: the defaults are merged in the order in which the collections
    declare them, each source over the merge of those before it, and the
    merge is not commutative.  Merging [{b:{c:3, d:4}}] and then
    [{a:1, b:{c:2}}] gives [{a:1, b:{c:2, d:4}}]: on the leaf [c] the later
    source wins, and the result differs from the one of the other order. *)
Theorem merge_follows_declaration_order :
  (forall (load_variables : string -> result dict) (paths : list string) (path : string),
      merge_default_variables load_variables (paths ++ [path])%list
      = (merge_result <~ merge_default_variables load_variables paths ;;
         variables <~ load_variables path ;;
         Ok (merge_collection_vars merge_result variables)))
  /\ default_var_paths_of
       {| _name := "hdfs"; _repo := ["hdfs"];
          _dag := dag_of_collections [("one", collection_B); ("two", collection_A)] |}
     = [("hdfs.yml", Some ["B"; "A"])]
  /\ default_var_paths_of
       {| _name := "hdfs"; _repo := ["hdfs"];
          _dag := dag_of_collections [("one", collection_A); ("two", collection_B)] |}
     = [("hdfs.yml", Some ["A"; "B"])]
  /\ merge_default_variables load_sources ["B"; "A"]
     = Ok [("b", VDict [("c", VInt 2); ("d", VInt 4)]); ("a", VInt 1)]
  /\ dict_eqb [("b", VDict [("c", VInt 2); ("d", VInt 4)]); ("a", VInt 1)]
              [("a", VInt 1); ("b", VDict [("c", VInt 2); ("d", VInt 4)])] = true
  /\ (exists a_then_b b_then_a,
        merge_default_variables load_sources ["A"; "B"] = Ok a_then_b /\
        merge_default_variables load_sources ["B"; "A"] = Ok b_then_a /\
        dict_eqb a_then_b b_then_a = false).
Proof.
  split; [|split; [|split; [|split; [|split]]]]; try reflexivity.
  - intros load_variables paths path. unfold merge_default_variables.
    rewrite for_each_app. destruct (for_each _ _ paths); simpl; [|done].
    by destruct (load_variables path).
  - by eexists _, _.
Qed.

(** ** Directories of the services *)

Lemma pair_of_fst {A B : Type} (p : A * B) (a : A) : p.1 = a -> p = (a, p.2).
Proof. destruct p. simpl. by intros ->. Qed.

Lemma makedirs_lookup (p : Path) :
  forall fs fs' : filesystem,
    makedirs p fs = Ok fs' ->
    forall q : Path,
      fs' !! q = fs !! q
      \/ (fs !! q = None /\ q ∈ p :: ancestors p /\ fs' !! q = Some (Dir empty_directory)).
Proof.
  induction p as [|a parent IH]; intros fs fs' Hmk q.
  - injection Hmk as <-. by left.
  - simpl in Hmk. destruct (fs !! (a :: parent)) as [[|d]|] eqn:Hp.
    + discriminate.
    + injection Hmk as <-. by left.
    + destruct (makedirs parent fs) as [fs1|e] eqn:Hparent; simpl in Hmk; [|discriminate].
      injection Hmk as <-. destruct (decide (q = a :: parent)) as [->|Hq].
      * right. rewrite lookup_insert_eq. split; [done|]. split; [by left|done].
      * rewrite lookup_insert_ne by done.
        destruct (IH _ _ Hparent q) as [?|(? & ? & ?)]; [by left|right].
        split; [done|]. split; [|done]. simpl. by right.
Qed.

Lemma makedirs_succeeds (p : Path) (fs : filesystem) :
  fs !! p <> Some RegularFile -> no_file_above p fs = true ->
  exists fs', makedirs p fs = Ok fs'.
Proof.
  induction p as [|a parent IH]; intros Hp Habove; simpl; [by eexists|].
  destruct (fs !! (a :: parent)) as [[|d]|] eqn:Hl; [done|by eexists|].
  unfold no_file_above in Habove. simpl in Habove.
  apply andb_true_iff in Habove as [Hparent Habove].
  destruct IH as [fs1 ->]; [by destruct (fs !! parent) as [[]|]|done|].
  simpl. by eexists.
Qed.

Lemma ancestors_length (p q : Path) : q ∈ ancestors p -> (length q < length p)%nat.
Proof.
  induction p as [|a parent IH]; simpl; intros Hq; [by apply elem_of_nil in Hq|].
  apply elem_of_cons in Hq as [->|Hq]; [lia|]. specialize (IH Hq). lia.
Qed.

Lemma sibling_not_above (root : Path) (s s' : string) :
  s' <> s -> s' :: root ∉ (s :: root) :: ancestors (s :: root).
Proof.
  intros Hne Hin. apply elem_of_cons in Hin as [[=]|Hin]; [done|].
  apply ancestors_length in Hin. simpl in Hin. lia.
Qed.

Lemma ensure_service_directory_lookup (p : Path) (fs fs' : filesystem) (r : result unit) :
  ensure_service_directory p fs = (r, fs') ->
  forall q : Path,
    fs' !! q = fs !! q
    \/ (fs !! q = None /\ q ∈ p :: ancestors p /\ fs' !! q = Some (Dir empty_directory)).
Proof.
  unfold ensure_service_directory, try_except, mkdir_parents, io_bind, is_dir, io_ret, io_raise.
  destruct (fs !! p) as [[|d]|] eqn:Hp; simpl; rewrite ?Hp; simpl.
  - intros [= <- <-] q. by left.
  - intros [= <- <-] q. by left.
  - destruct (makedirs p fs) as [fs1|e] eqn:Hmk.
    + intros [= <- <-] q. by eapply makedirs_lookup.
    + destruct e; simpl; rewrite ?Hp; simpl; intros [= <- <-] q; by left.
Qed.

Lemma GitRepository_init_lookup (p : Path) (fs fs' : filesystem) (r : result Path) :
  GitRepository_init p fs = (r, fs') -> forall q, q <> p -> fs' !! q = fs !! q.
Proof.
  unfold GitRepository_init. destruct (fs !! p) as [[|[t [h|]]]|];
    intros [= <- <-] q Hq; simpl; try done.
  by rewrite lookup_insert_ne.
Qed.

Lemma current_version_state (p : Path) (fs fs' : filesystem) (r : result nat) :
  current_version p fs = (r, fs') -> fs' = fs.
Proof.
  unfold current_version. destruct (fs !! p) as [[|[t [[|c h]|]]]|]; by intros [= <- <-].
Qed.

Lemma validate_open_var_files_lookup (repo : Path) (msg : string) (names : list string)
    (body : list (string * dict) -> result (list (string * dict)))
    (fs fs' : filesystem) (r : result unit) :
  validate_open_var_files repo msg names body fs = (r, fs') ->
  forall q, q <> repo -> fs' !! q = fs !! q.
Proof.
  unfold validate_open_var_files. destruct (fs !! repo) as [[|[t [h|]]]|];
    try (by intros [= <- <-]).
  destruct (body _); intros [= <- <-] q Hq; [|done]. by rewrite lookup_insert_ne.
Qed.

(** The body of the bootstrap loop, step by step. *)
Lemma bootstrap_service_unfold (load_variables : string -> result dict) (dag : Dag)
    (root : Path) (sms : list (string * ServiceManager)) (s : string) (fs : filesystem) :
  bootstrap_service load_variables dag root sms s fs =
  match ensure_service_directory (s :: root) fs with
  | (Raise e, fs1) => (Raise e, fs1)
  | (Ok _, fs1) =>
      match GitRepository_init (s :: root) fs1 with
      | (Raise e, fs2) => (Raise e, fs2)
      | (Ok repo, fs2) =>
          match ServiceManager_init s repo dag with
          | Raise e => (Raise e, fs2)
          | Ok sm =>
              match version sm fs2 with
              | (Ok _, fs3) => (Ok (od_set s sm sms), fs3)
              | (Raise NoVersionYet, fs3) =>
                  match initialize_variables load_variables sm fs3 with
                  | (Ok _, fs4) => (Ok (od_set s sm sms), fs4)
                  | (Raise e, fs4) => (Raise e, fs4)
                  end
              | (Raise e, fs3) => (Raise e, fs3)
              end
          end
      end
  end.
Proof.
  unfold bootstrap_service, io_bind, try_except, lift, io_ret, io_raise.
  destruct (ensure_service_directory (s :: root) fs) as [[[]|e] fs1]; [|done].
  destruct (GitRepository_init (s :: root) fs1) as [[repo|e] fs2]; [|done].
  destruct (ServiceManager_init s repo dag) as [sm|e]; [|done].
  destruct (version sm fs2) as [[v|e] fs3]; [done|].
  by destruct e.
Qed.

(** ** Initialisation of a service without default variables *)

Lemma collect_without_defaults (self : ServiceManager) :
  (forall c, c ∈ map snd (collections (_dag self)) ->
             get_service_default_vars c (_name self) = []) ->
  collect_default_var_paths self = [].
Proof.
  unfold collect_default_var_paths. generalize (@nil (string * option (list string))).
  induction (map snd (collections (_dag self))) as [|c cs IH]; intros acc Hall; [done|].
  simpl. rewrite (Hall c) by (by left). simpl. apply IH. intros c' Hc'. apply Hall. by right.
Qed.

(** C4: when no collection holds default variables for the service, the
    initialisation of its repository still makes one revision, with the
    message [<service>: initial commit], that holds the one file
    [<service>.yml]; nothing is written into the file, whose content is the
    one it had (none in a directory that did not have the file). *)
Theorem initialize_variables_without_defaults (load_variables : string -> result dict)
    (self : ServiceManager) (fs : filesystem) (t : list (string * dict)) (h : list Commit) :
  (forall c, c ∈ map snd (collections (_dag self)) ->
             get_service_default_vars c (_name self) = []) ->
  fs !! _repo self = Some (Dir {| tree := t; history := Some h |}) ->
  initialize_variables load_variables self fs
  = (Ok tt,
     <[_repo self :=
         Dir {| tree := od_set (_name self ++ YML_EXTENSION)
                          (default [] (od_get (_name self ++ YML_EXTENSION) t)) t;
                history :=
                  Some (app h [{| message := _name self ++ ": initial commit";
                                  files := [(_name self ++ YML_EXTENSION,
                                             default [] (od_get (_name self ++ YML_EXTENSION) t))]
                               |}]) |}]> fs).
Proof.
  intros Hnone Hrepo. unfold initialize_variables, default_var_paths_of.
  rewrite (collect_without_defaults self Hnone).
  unfold validate_open_var_files. rewrite Hrepo. simpl.
  by rewrite String.eqb_refl.
Qed.

Lemma initialize_variables_without_defaults_witness :
  initialize_variables load_sources (manager_of example_dag ["vars"] "yarn")
    (<[ ["yarn"; "vars"] := Dir {| tree := []; history := Some [] |} ]> ∅)
  = (Ok tt,
     <[ ["yarn"; "vars"] :=
          Dir {| tree := [("yarn.yml", [])];
                 history := Some [{| message := "yarn: initial commit";
                                     files := [("yarn.yml", [])] |}] |} ]>
       (<[ ["yarn"; "vars"] := Dir {| tree := []; history := Some [] |} ]> ∅)).
Proof.
  apply (initialize_variables_without_defaults load_sources
           (manager_of example_dag ["vars"] "yarn")
           (<[ ["yarn"; "vars"] := Dir {| tree := []; history := Some [] |} ]> ∅) [] []).
  - intros c Hc. simpl in Hc. apply list_elem_of_singleton in Hc as ->. reflexivity.
  - apply lookup_insert_eq.
Defined.

Lemma makedirs_new (p : Path) (fs fs' : filesystem) :
  p <> [] -> fs !! p = None -> makedirs p fs = Ok fs' ->
  fs' !! p = Some (Dir empty_directory).
Proof.
  destruct p as [|a parent]; [done|]. intros _ Hp. simpl. rewrite Hp.
  destruct (makedirs parent fs); simpl; [|discriminate].
  intros [= <-]. apply lookup_insert_eq.
Qed.

#[local] Arguments makedirs : simpl never.

(** ** The turn of a service and the bootstrap loop *)

Lemma ServiceManager_init_ok (s : string) (repo : Path) (dag : Dag) (sm : ServiceManager) :
  ServiceManager_init s repo dag = Ok sm ->
  sm = {| _name := s; _repo := repo; _dag := dag |}.
Proof. unfold ServiceManager_init. destruct (_ <? _)%nat; [discriminate|]. by intros [= <-]. Qed.

Lemma GitRepository_init_ok (p repo : Path) (fs fs' : filesystem) :
  GitRepository_init p fs = (Ok repo, fs') -> repo = p.
Proof.
  unfold GitRepository_init. destruct (fs !! p) as [[|[t [h|]]]|]; by intros [= <- <-].
Qed.

Lemma version_cases (fs : filesystem) (p : Path) :
  has_version fs p = true \/ without_version fs p = true \/ fs !! p = Some RegularFile.
Proof.
  unfold has_version, without_version.
  destruct (fs !! p) as [[|[t [[|c h]|]]]|]; auto.
Qed.

(** The turn of a service leaves the directories of the other services as
    they are, whether it ends well or not. *)
Lemma bootstrap_service_other (load_variables : string -> result dict) (dag : Dag)
    (root : Path) (sms : list (string * ServiceManager)) (s : string) (fs fs' : filesystem)
    (r : result (list (string * ServiceManager))) :
  bootstrap_service load_variables dag root sms s fs = (r, fs') ->
  forall s', s' <> s -> fs' !! (s' :: root) = fs !! (s' :: root).
Proof.
  rewrite bootstrap_service_unfold. intros Hrun s' Hne.
  assert (Hq : s' :: root <> s :: root) by congruence.
  destruct (ensure_service_directory (s :: root) fs) as [r1 fs1] eqn:H1.
  assert (E1 : fs1 !! (s' :: root) = fs !! (s' :: root)).
  { destruct (ensure_service_directory_lookup _ _ _ _ H1 (s' :: root)) as [?|(_ & Hin & _)];
      [done|]. by apply sibling_not_above in Hin. }
  destruct r1 as [[]|e]; [|by injection Hrun as <- <-].
  destruct (GitRepository_init (s :: root) fs1) as [r2 fs2] eqn:H2.
  pose proof (GitRepository_init_lookup _ _ _ _ H2 _ Hq) as E2.
  destruct r2 as [repo|e]; [|injection Hrun as <- <-; congruence].
  apply GitRepository_init_ok in H2 as ->.
  destruct (ServiceManager_init s (s :: root) dag) as [sm|e] eqn:H3;
    [|injection Hrun as <- <-; congruence].
  apply ServiceManager_init_ok in H3 as ->. unfold version in Hrun. simpl in Hrun.
  destruct (current_version (s :: root) fs2) as [r4 fs3] eqn:H4.
  apply current_version_state in H4 as ->.
  destruct r4 as [v|e]; [injection Hrun as <- <-; congruence|].
  destruct e; try (injection Hrun as <- <-; congruence).
  destruct (initialize_variables _ _ fs2) as [r5 fs4] eqn:H5.
  pose proof (validate_open_var_files_lookup _ _ _ _ _ _ _ H5 _ Hq) as E5.
  destruct r5 as [[]|e]; injection Hrun as <- <-; congruence.
Qed.

(** The turn of a service whose repository has a revision: the file system
    is left as it is and the variables are not initialised. *)
Lemma bootstrap_service_versioned (load_variables : string -> result dict) (dag : Dag)
    (root : Path) (sms : list (string * ServiceManager)) (s : string) (fs : filesystem) :
  has_version fs (s :: root) = true ->
  bootstrap_service load_variables dag root sms s fs
  = (match ServiceManager_init s (s :: root) dag with
     | Ok sm => Ok (od_set s sm sms)
     | Raise e => Raise e
     end, fs).
Proof.
  unfold has_version. intros Hv. rewrite bootstrap_service_unfold.
  destruct (fs !! (s :: root)) as [[|[t [[|c h]|]]]|] eqn:Hp; try discriminate.
  unfold ensure_service_directory, try_except, mkdir_parents, io_bind, is_dir, io_ret.
  rewrite Hp. simpl. rewrite Hp. simpl.
  unfold GitRepository_init. rewrite Hp. simpl.
  destruct (ServiceManager_init s (s :: root) dag) as [sm|e] eqn:H3; [|done].
  apply ServiceManager_init_ok in H3 as ->.
  unfold version, current_version. simpl. by rewrite Hp.
Qed.

(** The turn of a service without a revision, when it ends well: the
    variables were initialised in a repository without history, and the
    repository has one revision afterwards. *)
Lemma bootstrap_service_initializes (load_variables : string -> result dict) (dag : Dag)
    (root : Path) (sms sms' : list (string * ServiceManager)) (s : string)
    (fs fs' : filesystem) :
  without_version fs (s :: root) = true ->
  bootstrap_service load_variables dag root sms s fs = (Ok sms', fs') ->
  exists (fs2 : filesystem) (t : list (string * dict)),
    fs2 !! (s :: root) = Some (Dir {| tree := t; history := Some [] |}) /\
    initialize_variables load_variables (manager_of dag root s) fs2 = (Ok tt, fs') /\
    exists t' c,
      fs' !! (s :: root) = Some (Dir {| tree := t'; history := Some [c] |}) /\
      message c = s ++ ": initial commit".
Proof.
  intros Hw. rewrite bootstrap_service_unfold. intros Hrun.
  destruct (ensure_service_directory (s :: root) fs) as [[[]|e] fs1] eqn:H1; [|discriminate].
  destruct (GitRepository_init (s :: root) fs1) as [[repo|e] fs2] eqn:H2; [|discriminate].
  pose proof (GitRepository_init_ok _ _ _ _ H2) as ->.
  destruct (ServiceManager_init s (s :: root) dag) as [sm|e] eqn:H3; [|discriminate].
  apply ServiceManager_init_ok in H3 as ->. fold (manager_of dag root s) in Hrun.
  assert (H12 : exists t, fs2 !! (s :: root) = Some (Dir {| tree := t; history := Some [] |})).
  { revert H1 H2. unfold without_version in Hw.
    unfold ensure_service_directory, try_except, mkdir_parents, io_bind, is_dir, io_ret, io_raise.
    unfold GitRepository_init.
    destruct (fs !! (s :: root)) as [[|[t [[|c h]|]]]|] eqn:Hp; try discriminate;
      simpl; rewrite ?Hp; simpl.
    - intros [= <-]. rewrite Hp. simpl. intros [= <-]. by exists t.
    - intros [= <-]. rewrite Hp. simpl. intros [= <-]. exists t. apply lookup_insert_eq.
    - destruct (makedirs (s :: root) fs) as [fs1'|e] eqn:Hmk.
      + intros [= <-]. assert (Hne : s :: root <> []) by done.
        rewrite (makedirs_new _ _ _ Hne Hp Hmk). simpl.
        intros [= <-]. exists []. apply lookup_insert_eq.
      + destruct e; simpl; rewrite ?Hp; simpl; discriminate. }
  destruct H12 as [t Ht]. exists fs2, t. split; [done|].
  unfold version, current_version in Hrun. simpl in Hrun. rewrite Ht in Hrun.
  destruct (initialize_variables load_variables (manager_of dag root s) fs2)
    as [[[]|e] fs4] eqn:H5; [|discriminate].
  injection Hrun as <- <-. split; [done|].
  revert H5. unfold initialize_variables, validate_open_var_files. simpl. rewrite Ht.
  destruct (map_result _ _) as [written|e]; [|discriminate].
  intros [= <-]. eexists _, _. split; [apply lookup_insert_eq|done].
Qed.

(** The turn of a service that ends well leaves its manager in the mapping
    and a revision in its repository. *)
Lemma bootstrap_service_ok (load_variables : string -> result dict) (dag : Dag)
    (root : Path) (sms sms' : list (string * ServiceManager)) (s : string)
    (fs fs' : filesystem) :
  bootstrap_service load_variables dag root sms s fs = (Ok sms', fs') ->
  sms' = od_set s (manager_of dag root s) sms /\ has_version fs' (s :: root) = true.
Proof.
  intros Hrun. destruct (version_cases fs (s :: root)) as [Hv|[Hw|Hf]].
  - rewrite (bootstrap_service_versioned _ _ _ _ _ _ Hv) in Hrun.
    destruct (ServiceManager_init s (s :: root) dag) as [sm|e] eqn:H3; [|discriminate].
    apply ServiceManager_init_ok in H3 as ->. by injection Hrun as <- <-.
  - destruct (bootstrap_service_initializes _ _ _ _ _ _ _ _ Hw Hrun)
      as (fs2 & t & _ & _ & t' & c & Hp & _).
    split; [|unfold has_version; by rewrite Hp].
    revert Hrun. rewrite bootstrap_service_unfold.
    destruct (ensure_service_directory (s :: root) fs) as [[[]|e] fs1]; [|discriminate].
    destruct (GitRepository_init (s :: root) fs1) as [[repo|e] fs3] eqn:H2; [|discriminate].
    apply GitRepository_init_ok in H2 as ->.
    destruct (ServiceManager_init s (s :: root) dag) as [sm|e] eqn:H3; [|discriminate].
    apply ServiceManager_init_ok in H3 as ->.
    destruct (version _ fs3) as [[v|e] fs4]; [by intros [= <- <-]|].
    destruct e; try discriminate.
    destruct (initialize_variables _ _ fs4) as [[[]|e] fs5]; [|discriminate].
    by intros [= <- <-].
  - revert Hrun. rewrite bootstrap_service_unfold.
    unfold ensure_service_directory, try_except, mkdir_parents, io_bind, is_dir, io_raise.
    rewrite Hf. simpl. rewrite Hf. discriminate.
Qed.

Lemma bootstrap_service_file (load_variables : string -> result dict) (dag : Dag)
    (root : Path) (sms : list (string * ServiceManager)) (s : string) (fs : filesystem) :
  fs !! (s :: root) = Some RegularFile ->
  ensure_service_directory (s :: root) fs
  = (Raise (ValueError (path_str (s :: root) ++ " should be a directory")), fs)
  /\ bootstrap_service load_variables dag root sms s fs
     = (Raise (ValueError (path_str (s :: root) ++ " should be a directory")), fs).
Proof.
  intros Hf.
  assert (He : ensure_service_directory (s :: root) fs
               = (Raise (ValueError (path_str (s :: root) ++ " should be a directory")), fs)).
  { unfold ensure_service_directory, try_except, mkdir_parents, io_bind, is_dir, io_raise.
    rewrite Hf. simpl. by rewrite Hf. }
  split; [done|]. by rewrite bootstrap_service_unfold, He.
Qed.

Section BootstrapLoop.
Variable load_variables : string -> result dict.
Variable dag : Dag.
Variable root : Path.

Local Abbreviation body := (bootstrap_service load_variables dag root).

Lemma has_version_lookup (fs fs' : filesystem) (p : Path) :
  fs' !! p = fs !! p -> has_version fs' p = has_version fs p.
Proof. unfold has_version. by intros ->. Qed.

Lemma without_version_lookup (fs fs' : filesystem) (p : Path) :
  fs' !! p = fs !! p -> without_version fs' p = without_version fs p.
Proof. unfold without_version. by intros ->. Qed.

(** A repository with a revision goes through the whole loop unchanged,
    whether the loop ends well or not. *)
Lemma loop_keeps_versioned (s : string) (l : list string) :
  forall (sms : list (string * ServiceManager)) (fs : filesystem),
    has_version fs (s :: root) = true ->
    (io_for_each body sms l fs).2 !! (s :: root) = fs !! (s :: root).
Proof.
  induction l as [|a l IH]; intros sms fs Hv; [done|].
  simpl. unfold io_bind. destruct (body sms a fs) as [r fs1] eqn:Hbody.
  assert (E : fs1 !! (s :: root) = fs !! (s :: root)).
  { destruct (decide (a = s)) as [->|Hne].
    - rewrite (bootstrap_service_versioned _ _ _ _ _ _ Hv) in Hbody.
      by injection Hbody as _ <-.
    - by eapply bootstrap_service_other. }
  destruct r as [sms1|e]; [|done].
  rewrite IH; [done|]. by rewrite (has_version_lookup _ _ _ E).
Qed.

(** A service of the loop whose directory had no revision has exactly the
    revision of its initialisation when the loop ends well. *)
Lemma loop_initializes (s : string) (l : list string) :
  s ∈ l ->
  forall (sms sms' : list (string * ServiceManager)) (fs fs' : filesystem),
    without_version fs (s :: root) = true ->
    io_for_each body sms l fs = (Ok sms', fs') ->
    exists (fs2 fs3 : filesystem) (t : list (string * dict)),
      fs2 !! (s :: root) = Some (Dir {| tree := t; history := Some [] |}) /\
      initialize_variables load_variables (manager_of dag root s) fs2 = (Ok tt, fs3) /\
      fs' !! (s :: root) = fs3 !! (s :: root) /\
      exists t' c,
        fs' !! (s :: root) = Some (Dir {| tree := t'; history := Some [c] |}) /\
        message c = s ++ ": initial commit".
Proof.
  induction l as [|a l IH]; intros Hin sms sms' fs fs' Hw Hrun;
    [by apply elem_of_nil in Hin|].
  simpl in Hrun. unfold io_bind in Hrun.
  destruct (body sms a fs) as [[sms1|e] fs1] eqn:Hbody; [|discriminate].
  destruct (decide (a = s)) as [->|Hne].
  - destruct (bootstrap_service_initializes _ _ _ _ _ _ _ _ Hw Hbody)
      as (fs2 & t & Ht & Hinit & t' & c & Hp & Hc).
    assert (Hv : has_version fs1 (s :: root) = true)
      by (unfold has_version; by rewrite Hp).
    pose proof (loop_keeps_versioned s l sms1 fs1 Hv) as Hkeep.
    rewrite Hrun in Hkeep. simpl in Hkeep.
    exists fs2, fs1, t. repeat split; try done. exists t', c. by rewrite Hkeep.
  - apply elem_of_cons in Hin as [->|Hin]; [done|].
    apply (IH Hin sms1 sms' fs1 fs'); [|done].
    rewrite <- Hw. apply without_version_lookup. by eapply bootstrap_service_other.
Qed.

(** A regular file in the place of the directory of a service of the loop
    makes the loop fail. *)
Lemma loop_fails_on_file (s : string) (l : list string) :
  s ∈ l ->
  forall (sms : list (string * ServiceManager)) (fs : filesystem),
    fs !! (s :: root) = Some RegularFile ->
    exists e, (io_for_each body sms l fs).1 = Raise e.
Proof.
  induction l as [|a l IH]; intros Hin sms fs Hf; [by apply elem_of_nil in Hin|].
  simpl. unfold io_bind. destruct (decide (a = s)) as [->|Hne].
  - rewrite (proj2 (bootstrap_service_file _ _ _ _ _ _ Hf)). by eexists.
  - destruct (body sms a fs) as [[sms1|e] fs1] eqn:Hbody; [|by eexists].
    apply elem_of_cons in Hin as [->|Hin]; [done|]. apply (IH Hin).
    rewrite <- Hf. by eapply bootstrap_service_other.
Qed.

Lemma elem_of_od_set {V : Type} (key k : string) (v x : V) (d : list (string * V)) :
  (k, v) ∈ od_set key x d -> (k = key /\ v = x) \/ (k, v) ∈ d.
Proof.
  induction d as [|[k' w] d IH]; simpl.
  - intros H. apply list_elem_of_singleton in H as [= -> ->]. by left.
  - destruct (String.eqb_spec k' key) as [->|Hne].
    + intros H. apply elem_of_cons in H as [[= -> ->]|H]; [by left|].
      right. by right.
    + intros H. apply elem_of_cons in H as [[= -> ->]|H]; [right; by left|].
      destruct (IH H) as [?|?]; [by left|right; by right].
Qed.

Lemma loop_managers_versioned (l : list string) :
  forall (sms sms' : list (string * ServiceManager)) (fs fs' : filesystem),
    managers_versioned dag root sms fs ->
    io_for_each body sms l fs = (Ok sms', fs') ->
    managers_versioned dag root sms' fs'.
Proof.
  induction l as [|a l IH]; intros sms sms' fs fs' Hinv Hrun.
  - by injection Hrun as <- <-.
  - simpl in Hrun. unfold io_bind in Hrun.
    destruct (body sms a fs) as [[sms1|e] fs1] eqn:Hbody; [|discriminate].
    apply (IH sms1 sms' fs1 fs'); [|done].
    destruct (bootstrap_service_ok _ _ _ _ _ _ _ _ Hbody) as [-> Hv].
    intros name sm Hin. apply elem_of_od_set in Hin as [[-> ->]|Hin]; [done|].
    destruct (Hinv name sm Hin) as [-> Hold]. split; [done|].
    destruct (decide (name = a)) as [->|Hne]; [done|].
    rewrite <- Hold. apply has_version_lookup. by eapply bootstrap_service_other.
Qed.

End BootstrapLoop.

Lemma version_of_versioned (sm : ServiceManager) (fs : filesystem) :
  has_version fs (_repo sm) = true -> exists v, version sm fs = (Ok (S v), fs).
Proof.
  unfold has_version, version, current_version.
  destruct (fs !! _repo sm) as [[|[t [[|c h]|]]]|]; try discriminate.
  intros _. by eexists.
Qed.

(** The loop of [init] prints a version for every manager whose repository
    has a revision; the handler of [NoVersionYet] is not entered. *)
Lemma report_versioned (fs : filesystem) (sms : list (string * ServiceManager)) :
  (forall name sm, (name, sm) ∈ sms -> has_version fs (_repo sm) = true) ->
  forall out : list line,
    exists out', io_for_each report_service out sms fs = (Ok out', fs) /\
                 length out' = (length out + length sms)%nat.
Proof.
  induction sms as [|[name sm] sms IH]; intros Hall out; simpl.
  - exists out. split; [done|lia].
  - unfold io_bind, try_except.
    destruct (version_of_versioned sm fs) as [v Hv]; [apply (Hall name); by left|].
    rewrite Hv. simpl.
    destruct (IH (fun n m H => Hall n m (list_elem_of_further _ _ _ H))
                 (out ++ [VersionLine name (S v)])%list) as (out' & -> & Hlen).
    exists out'. split; [done|]. rewrite Hlen, length_app. simpl. lia.
Qed.

(** C8: for a service of the graph, the bootstrap makes the directory of
    the service, with the directories above it that are missing, when the
    path is free (and no regular file lies above it); it fails with the
    [ValueError] "should be a directory" when a regular file has the path,
    and that failure is the one of the loop body and makes the whole
    bootstrap fail; it goes on without an error and without a change when
    the path is a directory. *)
Theorem bootstrap_service_directory_cases (load_variables : string -> result dict)
    (dag : Dag) (root : Path) (service : string) (fs : filesystem) :
  service ∈ services dag ->
  (fs !! (service :: root) = None -> no_file_above (service :: root) fs = true ->
   exists fs1,
     ensure_service_directory (service :: root) fs = (Ok tt, fs1) /\
     fs1 !! (service :: root) = Some (Dir empty_directory) /\
     forall q : Path,
       fs1 !! q = fs !! q
       \/ (fs !! q = None /\ q ∈ (service :: root) :: ancestors (service :: root) /\
           fs1 !! q = Some (Dir empty_directory)))
  /\ (fs !! (service :: root) = Some RegularFile ->
      ensure_service_directory (service :: root) fs
      = (Raise (ValueError (path_str (service :: root) ++ " should be a directory")), fs)
      /\ (forall sms,
            bootstrap_service load_variables dag root sms service fs
            = (Raise (ValueError (path_str (service :: root) ++ " should be a directory")),
               fs))
      /\ exists e, (initialize_service_managers load_variables dag root fs).1 = Raise e)
  /\ (forall d, fs !! (service :: root) = Some (Dir d) ->
                ensure_service_directory (service :: root) fs = (Ok tt, fs)).
Proof.
  intros Hin. split; [|split].
  - intros Hp Habove.
    destruct (makedirs_succeeds (service :: root) fs) as [fs1 Hmk];
      [by rewrite Hp|done|].
    exists fs1.
    assert (He : ensure_service_directory (service :: root) fs = (Ok tt, fs1)).
    { unfold ensure_service_directory, try_except, mkdir_parents. by rewrite Hp, Hmk. }
    split; [done|]. split; [by apply (makedirs_new _ fs)|].
    by eapply ensure_service_directory_lookup.
  - intros Hf. split; [apply (bootstrap_service_file load_variables dag root [] _ _ Hf)|].
    split; [intros sms; apply (bootstrap_service_file _ _ _ _ _ _ Hf)|].
    apply (loop_fails_on_file load_variables dag root service (services dag) Hin [] fs Hf).
  - intros d Hd. unfold ensure_service_directory, try_except, mkdir_parents, io_bind, is_dir.
    rewrite Hd. simpl. by rewrite Hd.
Qed.

Lemma bootstrap_service_directory_cases_witness :
  ensure_service_directory ["hive"; "vars"] example_fs
  = (Raise (ValueError "/vars/hive should be a directory"), example_fs)
  /\ ensure_service_directory ["hdfs"; "vars"] example_fs = (Ok tt, example_fs).
Proof.
  assert (Hhive : "hive" ∈ services hive_dag) by (right; left).
  assert (Hhdfs : "hdfs" ∈ services hive_dag) by left.
  split.
  - apply (proj1 (proj2 (bootstrap_service_directory_cases
                           load_sources hive_dag ["vars"] "hive" example_fs Hhive))).
    reflexivity.
  - apply (proj2 (proj2 (bootstrap_service_directory_cases
                           load_sources hive_dag ["vars"] "hdfs" example_fs Hhdfs))
             hdfs_directory).
    reflexivity.
Defined.

(** C5: for a service of the graph whose repository has a revision, the
    turn of the service leaves the file system as it is, so that the
    variables are not initialised and no revision is made, and its
    directory is the same after the whole bootstrap.  For a service whose
    directory is free or holds no revision, a bootstrap that ends well has
    run [initialize_variables] for it in a repository without history, and
    the repository holds the one revision [<service>: initial commit]. *)
Theorem bootstrap_initializes_without_version (load_variables : string -> result dict)
    (dag : Dag) (root : Path) (service : string) (fs : filesystem) :
  service ∈ services dag ->
  (has_version fs (service :: root) = true ->
   (forall sms,
      bootstrap_service load_variables dag root sms service fs
      = (match ServiceManager_init service (service :: root) dag with
         | Ok sm => Ok (od_set service sm sms)
         | Raise e => Raise e
         end, fs))
   /\ (initialize_service_managers load_variables dag root fs).2 !! (service :: root)
      = fs !! (service :: root))
  /\ (without_version fs (service :: root) = true ->
      forall sms fs',
        initialize_service_managers load_variables dag root fs = (Ok sms, fs') ->
        exists (fs2 fs3 : filesystem) (t : list (string * dict)),
          fs2 !! (service :: root) = Some (Dir {| tree := t; history := Some [] |}) /\
          initialize_variables load_variables (manager_of dag root service) fs2
          = (Ok tt, fs3) /\
          fs' !! (service :: root) = fs3 !! (service :: root) /\
          exists t' c,
            fs' !! (service :: root) = Some (Dir {| tree := t'; history := Some [c] |}) /\
            message c = service ++ ": initial commit").
Proof.
  intros Hin. split.
  - intros Hv. split; [intros sms; by apply bootstrap_service_versioned|].
    by apply loop_keeps_versioned.
  - intros Hw sms fs' Hrun.
    apply (loop_initializes load_variables dag root service (services dag) Hin
             [] sms fs fs' Hw Hrun).
Qed.

Lemma bootstrap_initializes_without_version_witness :
  (initialize_service_managers load_sources example_dag ["vars"] example_fs).2
    !! ["hdfs"; "vars"]
  = Some (Dir hdfs_directory)
  /\ exists t c,
       (initialize_service_managers load_sources example_dag ["vars"] example_fs).2
         !! ["yarn"; "vars"]
       = Some (Dir {| tree := t; history := Some [c] |})
       /\ message c = "yarn: initial commit".
Proof.
  assert (Hhdfs : "hdfs" ∈ services example_dag) by left.
  assert (Hyarn : "yarn" ∈ services example_dag) by (right; left).
  assert (Hrun : initialize_service_managers load_sources example_dag ["vars"] example_fs
                 = (Ok [("hdfs", manager_of example_dag ["vars"] "hdfs");
                        ("yarn", manager_of example_dag ["vars"] "yarn")],
                    (initialize_service_managers load_sources example_dag ["vars"]
                       example_fs).2))
    by (apply pair_of_fst; vm_compute; reflexivity).
  split.
  - rewrite (proj2 (proj1 (bootstrap_initializes_without_version
                             load_sources example_dag ["vars"] "hdfs" example_fs Hhdfs)
                      eq_refl)).
    reflexivity.
  - destruct (proj2 (bootstrap_initializes_without_version
                       load_sources example_dag ["vars"] "yarn" example_fs Hyarn)
                eq_refl _ _ Hrun)
      as (_ & _ & _ & _ & _ & _ & t' & c & Hp & Hc).
    by exists t', c.
Defined.

(** C10: when the bootstrap ends well, every manager of the mapping it
    returns is the manager of its service and reading its version gives a
    revision: [NoVersionYet] is not raised.  The loop of [init] over the
    managers therefore prints a version for each of them and never enters
    the handler of [NoVersionYet]. *)
Theorem bootstrap_managers_have_version (load_variables : string -> result dict)
    (dag : Dag) (root : Path) (fs fs' : filesystem) (sms : list (string * ServiceManager)) :
  initialize_service_managers load_variables dag root fs = (Ok sms, fs') ->
  (forall name sm, (name, sm) ∈ sms ->
     sm = manager_of dag root name /\ exists v, version sm fs' = (Ok (S v), fs'))
  /\ exists out,
       init load_variables dag root fs = (Ok out, fs') /\ length out = length sms.
Proof.
  intros Hrun.
  assert (Hinv : managers_versioned dag root sms fs').
  { apply (loop_managers_versioned load_variables dag root (services dag) [] sms fs fs');
      [|done]. intros name sm H. by apply elem_of_nil in H. }
  split.
  - intros name sm Hin. destruct (Hinv name sm Hin) as [-> Hv]. split; [done|].
    by apply version_of_versioned.
  - destruct (report_versioned fs' sms) with (out := @nil line) as (out & Hout & Hlen).
    { intros name sm Hin. by destruct (Hinv name sm Hin) as [-> Hv]. }
    exists out. split; [|done]. unfold init, io_bind. by rewrite Hrun.
Qed.

Lemma bootstrap_managers_have_version_witness :
  exists v,
    version (manager_of example_dag ["vars"] "yarn")
      (initialize_service_managers load_sources example_dag ["vars"] example_fs).2
    = (Ok (S v), (initialize_service_managers load_sources example_dag ["vars"] example_fs).2).
Proof.
  assert (Hrun : initialize_service_managers load_sources example_dag ["vars"] example_fs
                 = (Ok [("hdfs", manager_of example_dag ["vars"] "hdfs");
                        ("yarn", manager_of example_dag ["vars"] "yarn")],
                    (initialize_service_managers load_sources example_dag ["vars"]
                       example_fs).2))
    by (apply pair_of_fst; vm_compute; reflexivity).
  apply (proj1 (bootstrap_managers_have_version load_sources example_dag ["vars"]
                  example_fs _ _ Hrun) "yarn").
  right. left.
Defined.

(** * Further properties *)

(** ** Resolution of the modified components, continued *)

Lemma loop_known_ok {component_api : ComponentAPI} (dag : Dag) (files : list string) :
  (forall f, f ∈ files -> ~ unknown_service dag f) ->
  forall acc : gset Component,
    exists s, for_each (components_modified_step dag) acc files = Ok s.
Proof.
  intros Hknown acc.
  destruct (for_each (components_modified_step dag) acc files) as [s|e] eqn:Hrun;
    [by exists s|].
  apply loop_raise in Hrun as (f & Hf & Hu & _). by destruct (Hknown f Hf).
Qed.

Lemma loop_app {component_api : ComponentAPI} (dag : Dag) (l1 l2 : list string)
    (acc : gset Component) :
  for_each (components_modified_step dag) acc (l1 ++ l2)%list
  = (s <~ for_each (components_modified_step dag) acc l1 ;;
     for_each (components_modified_step dag) s l2).
Proof. apply for_each_app. Qed.

(** X1: when [components_modified] returns, a component is in the result
    exactly when one of the modified files contributes it: the candidate of
    a file that is not service-level, or a [config] component of the
    service of a service-level file.  No file is dropped and nothing else
    is added. *)
Theorem components_modified_exact (component_api : ComponentAPI)
    (files_modified : Path -> string -> result (list string))
    (self : ServiceManager) (version : string) (l : list Component) :
  components_modified files_modified self version = Ok l ->
  exists files,
    files_modified (_repo self) version = Ok files /\
    forall c, c ∈ l <-> exists f, f ∈ files /\ contributes (_dag self) f c.
Proof.
  unfold components_modified, components_modified_set.
  destruct (files_modified (_repo self) version) as [files|e]; simpl; [|discriminate].
  destruct (for_each (components_modified_step (_dag self)) ∅ files) as [s|e] eqn:Hrun;
    simpl; [|discriminate].
  intros [= <-]. exists files. split; [done|]. intros c.
  rewrite elem_of_elements, (loop_ok_elem _ _ _ _ Hrun c).
  split; [intros [H|H]; [by apply not_elem_of_empty in H|done]|by right].
Qed.

Lemma components_modified_exact_witness :
  exists files,
    Ok ["hdfs.yml"; "yarn_nodemanager.yml"] = Ok files /\
    forall c, c ∈ [mkComponent "yarn_nodemanager_config"; hdfs_namenode_config;
                   hdfs_datanode_config]
              <-> exists f, f ∈ files /\ @contributes spec_component hdfs_dag f c.
Proof.
  apply (components_modified_exact spec_component
           (fun _ _ => Ok ["hdfs.yml"; "yarn_nodemanager.yml"]) hdfs_manager "v1").
  reflexivity.
Defined.

(** X2: the result does not depend on the order of the modified files nor
    on their repetition: two lists with the same files give the same
    components, and the second resolution returns when the first does. *)
Theorem components_modified_order_independent (component_api : ComponentAPI)
    (files_modified files_modified' : Path -> string -> result (list string))
    (self : ServiceManager) (version version' : string)
    (files files' : list string) (l : list Component) :
  files_modified (_repo self) version = Ok files ->
  files_modified' (_repo self) version' = Ok files' ->
  (forall f, f ∈ files <-> f ∈ files') ->
  components_modified files_modified self version = Ok l ->
  exists l', components_modified files_modified' self version' = Ok l' /\ l ≡ₚ l'.
Proof.
  intros Hf Hf' Hsame. unfold components_modified, components_modified_set.
  rewrite Hf, Hf'. simpl.
  destruct (for_each (components_modified_step (_dag self)) ∅ files) as [s|e] eqn:Hrun;
    simpl; [|discriminate].
  intros [= <-].
  destruct (loop_known_ok (_dag self) files') with (acc := (∅ : gset Component))
    as [s' Hrun'].
  { intros f Hin Hu. apply Hsame in Hin.
    pose proof (loop_unknown _ _ _ Hin Hu ∅) as Hko. by rewrite Hrun in Hko. }
  rewrite Hrun'. simpl. eexists. split; [done|].
  assert (s = s') as ->; [|done].
  apply set_eq. intros c.
  rewrite (loop_ok_elem _ _ _ _ Hrun c), (loop_ok_elem _ _ _ _ Hrun' c).
  split; (intros [?|(f & Hin & ?)]; [by left|right; exists f; split; [by apply Hsame|done]]).
Qed.

Lemma components_modified_order_independent_witness :
  exists l',
    @components_modified spec_component
       (fun _ _ => Ok ["hdfs_datanode.yml"; "hdfs.yml"; "hdfs_datanode.yml"])
       hdfs_manager "v2" = Ok l'
    /\ [hdfs_namenode_config; hdfs_datanode_config] ≡ₚ l'.
Proof.
  apply (components_modified_order_independent spec_component
           (fun _ _ => Ok ["hdfs.yml"; "hdfs_datanode.yml"])
           (fun _ _ => Ok ["hdfs_datanode.yml"; "hdfs.yml"; "hdfs_datanode.yml"])
           hdfs_manager "v1" "v2"
           ["hdfs.yml"; "hdfs_datanode.yml"]
           ["hdfs_datanode.yml"; "hdfs.yml"; "hdfs_datanode.yml"]);
    try reflexivity.
  intros f. rewrite !elem_of_cons, !elem_of_nil. tauto.
Defined.

(** X3: the resolution stops at the first modified file whose candidate is
    service-level for a service that is not a key of the graph, and raises
    the [KeyError] of that service; the files after it are not looked
    at. *)
Theorem components_modified_first_unknown (component_api : ComponentAPI)
    (files_modified : Path -> string -> result (list string))
    (self : ServiceManager) (version : string) (before after : list string) (f : string) :
  files_modified (_repo self) version = Ok (before ++ f :: after)%list ->
  (forall g, g ∈ before -> ~ unknown_service (_dag self) g) ->
  unknown_service (_dag self) f ->
  components_modified files_modified self version
  = Raise (KeyError (service (candidate f))).
Proof.
  intros Hfiles Hknown Hu. unfold components_modified, components_modified_set.
  rewrite Hfiles. simpl. rewrite loop_app.
  destruct (loop_known_ok (_dag self) before Hknown ∅) as [s ->]. simpl.
  by rewrite (step_unknown _ _ _ Hu).
Qed.

Lemma components_modified_first_unknown_witness :
  @components_modified spec_component
     (fun _ _ => Ok ["hdfs.yml"; "yarn.yml"; "hive.yml"]) hdfs_manager "v1"
  = Raise (KeyError "yarn").
Proof.
  apply (components_modified_first_unknown spec_component
           (fun _ _ => Ok ["hdfs.yml"; "yarn.yml"; "hive.yml"]) hdfs_manager "v1"
           ["hdfs.yml"] ["hive.yml"] "yarn.yml").
  - reflexivity.
  - intros g Hg [_ Hnone]. apply list_elem_of_singleton in Hg as ->. discriminate.
  - split; reflexivity.
Defined.



(** ** The default variables of a service, continued *)

Section DefaultVarPaths.

Lemma append_path_get (acc : list (string * option (list string))) (n p name : string) :
  od_get name (append_path acc (n, p))
  = if String.eqb n name then Some (Some (paths_of n acc ++ [p])%list) else od_get name acc.
Proof.
  unfold append_path, paths_of. destruct (String.eqb_spec n name) as [->|Hne].
  - by rewrite od_get_set_eq.
  - by rewrite od_get_set_ne.
Qed.

Lemma fold_append_path_get (entries : list (string * string)) (name : string) :
  forall acc : list (string * option (list string)),
    od_get name (fold_left append_path entries acc)
    = match paths_for name entries with
      | [] => od_get name acc
      | paths => Some (Some (paths_of name acc ++ paths)%list)
      end.
Proof.
  unfold paths_for.
  induction entries as [|[n p] entries IH]; intros acc; [done|].
  change (fold_left append_path ((n, p) :: entries) acc)
    with (fold_left append_path entries (append_path acc (n, p))).
  rewrite IH.
  assert (Hp : paths_of name (append_path acc (n, p))
               = if String.eqb n name then (paths_of n acc ++ [p])%list
                 else paths_of name acc).
  { unfold paths_of at 1. rewrite append_path_get.
    destruct (String.eqb n name); reflexivity. }
  rewrite Hp, append_path_get.
  destruct (String.eqb_spec n name) as [->|Hne].
  - rewrite filter_cons_True by done. simpl.
    destruct (map snd (filter _ entries)) as [|q qs]; [done|].
    by rewrite <- app_assoc.
  - by rewrite filter_cons_False by done.
Qed.

Lemma collect_as_fold (self : ServiceManager) :
  collect_default_var_paths self = fold_left append_path (default_entries self) [].
Proof.
  unfold collect_default_var_paths, default_entries.
  generalize (@nil (string * option (list string))).
  induction (map snd (collections (_dag self))) as [|c cs IH]; intros acc; [done|].
  simpl. by rewrite fold_left_app, IH.
Qed.

Lemma od_keys_set {V : Type} (key : string) (v : V) (d : list (string * V)) :
  od_keys (od_set key v d)
  = if bool_decide (key ∈ od_keys d) then od_keys d else (od_keys d ++ [key])%list.
Proof.
  induction d as [|[k w] d IH]; simpl; [done|].
  destruct (String.eqb_spec k key) as [->|Hne]; simpl.
  - rewrite bool_decide_eq_true_2; [done|by left].
  - rewrite IH. destruct (bool_decide (key ∈ od_keys d)) eqn:Hd.
    + apply bool_decide_eq_true in Hd. rewrite bool_decide_eq_true_2; [done|by right].
    + apply bool_decide_eq_false in Hd. rewrite bool_decide_eq_false_2; [done|].
      rewrite elem_of_cons. intros [?|?]; congruence.
Qed.

Lemma od_set_NoDup {V : Type} (key : string) (v : V) (d : list (string * V)) :
  NoDup (od_keys d) -> NoDup (od_keys (od_set key v d)).
Proof.
  intros Hd. rewrite od_keys_set. case_bool_decide as Hin; [done|].
  apply NoDup_app. split; [done|]. split; [|apply NoDup_singleton].
  intros k Hk Hk'. apply list_elem_of_singleton in Hk' as ->. done.
Qed.

Lemma fold_append_path_NoDup (entries : list (string * string)) :
  forall acc : list (string * option (list string)),
    NoDup (od_keys acc) -> NoDup (od_keys (fold_left append_path entries acc)).
Proof.
  induction entries as [|[n p] entries IH]; intros acc Hacc; [done|].
  simpl. apply IH. unfold append_path. by apply od_set_NoDup.
Qed.

Lemma od_get_elem_of {V : Type} (k : string) (v : V) (d : list (string * V)) :
  NoDup (od_keys d) -> (k, v) ∈ d -> od_get k d = Some v.
Proof.
  induction d as [|[k' w] d IH]; simpl; intros Hnd Hin; [by apply elem_of_nil in Hin|].
  apply NoDup_cons in Hnd as [Hk' Hnd].
  apply elem_of_cons in Hin as [[= -> ->]|Hin]; [by rewrite String.eqb_refl|].
  destruct (String.eqb_spec k' k) as [->|Hne]; [|by apply IH].
  destruct Hk'. apply list_elem_of_fmap. by exists (k, v).
Qed.

End DefaultVarPaths.

Lemma od_get_is_Some {V : Type} (k : string) (d : list (string * V)) :
  is_Some (od_get k d) <-> k ∈ od_keys d.
Proof.
  induction d as [|[k' w] d IH]; simpl.
  - split; [by intros [? ?]|intros H; by apply elem_of_nil in H].
  - destruct (String.eqb_spec k' k) as [->|Hne].
    + split; [intros _; by left|by eexists].
    + rewrite IH, elem_of_cons. split; [by right|intros [?|?]; congruence].
Qed.

Lemma paths_for_nil (name : string) (entries : list (string * string)) :
  paths_for name entries = [] <-> name ∉ map fst entries.
Proof.
  unfold paths_for. induction entries as [|[n p] entries IH]; simpl.
  - split; [intros _ H; by apply elem_of_nil in H|done].
  - destruct (decide (n = name)) as [->|Hne].
    + rewrite filter_cons_True by done. simpl.
      split; [discriminate|intros H; destruct H; by left].
    + rewrite filter_cons_False by done. rewrite IH, not_elem_of_cons.
      split; [intros ?; split; [congruence|done]|by intros [_ ?]].
Qed.

Lemma collect_default_var_paths_get (self : ServiceManager) (name : string) :
  od_get name (collect_default_var_paths self)
  = match paths_for name (default_entries self) with
    | [] => None
    | paths => Some (Some paths)
    end.
Proof. by rewrite collect_as_fold, fold_append_path_get. Qed.

(** X5: the first loop of [initialize_variables] groups the default
    variables by file name: the paths kept for a name are the paths that
    the collections declare for it, in the order of the collections and of
    their declarations; a name that no collection declares has no key. *)
Theorem default_var_paths_grouped (self : ServiceManager) (name : string) :
  od_get name (collect_default_var_paths self)
  = match paths_for name (default_entries self) with
    | [] => None
    | paths => Some (Some paths)
    end.
Proof. apply collect_default_var_paths_get. Qed.

(** X6: the file names that [initialize_variables] opens are never empty
    and hold no name twice; they are the names the collections declare, or
    the one name [<service>.yml] when they declare none; and every group of
    paths collected for a name is non-empty, so that the branch without
    variables is only taken for the synthesized name. *)
Theorem default_var_paths_keys (self : ServiceManager) :
  NoDup (od_keys (default_var_paths_of self))
  /\ default_var_paths_of self <> []
  /\ (forall name, name ∈ od_keys (collect_default_var_paths self)
                   <-> name ∈ map fst (default_entries self))
  /\ (forall name v, (name, v) ∈ collect_default_var_paths self ->
                     exists path paths, v = Some (path :: paths))
  /\ (default_entries self = [] ->
      default_var_paths_of self = [(_name self ++ YML_EXTENSION, None)]).
Proof.
  assert (Hnd : NoDup (od_keys (collect_default_var_paths self))).
  { rewrite collect_as_fold. apply fold_append_path_NoDup. constructor. }
  split; [|split; [|split; [|split]]].
  - unfold default_var_paths_of.
    destruct (collect_default_var_paths self);
      [apply NoDup_singleton|done].
  - unfold default_var_paths_of. by destruct (collect_default_var_paths self).
  - intros name. rewrite <- od_get_is_Some, collect_default_var_paths_get.
    pose proof (paths_for_nil name (default_entries self)) as Hnil.
    destruct (paths_for name (default_entries self)) as [|p ps].
    + split; [by intros [? ?]|]. intros Hin. by destruct (proj1 Hnil eq_refl).
    + split; [|by eexists]. intros _.
      destruct (decide (name ∈ map fst (default_entries self))) as [?|Hn]; [done|].
      by apply Hnil in Hn.
  - intros name v Hin. apply (od_get_elem_of _ _ _ Hnd) in Hin.
    rewrite collect_default_var_paths_get in Hin.
    destruct (paths_for name (default_entries self)) as [|p ps]; [discriminate|].
    injection Hin as <-. by eexists _, _.
  - intros Hnone. unfold default_var_paths_of. by rewrite collect_as_fold, Hnone.
Qed.

Lemma default_var_paths_keys_witness :
  NoDup (od_keys (default_var_paths_of (manager_of example_dag ["vars"] "yarn")))
  /\ default_var_paths_of (manager_of example_dag ["vars"] "yarn") = [("yarn.yml", None)].
Proof.
  destruct (default_var_paths_keys (manager_of example_dag ["vars"] "yarn"))
    as (Hnd & _ & _ & _ & Hnone).
  split; [exact Hnd|]. apply Hnone. reflexivity.
Defined.

Lemma merge_default_variables_loaded (load_variables : string -> result dict)
    (paths : list string) :
  (forall p, p ∈ paths -> is_ok (load_variables p) = true) ->
  forall acc : dict,
    exists merged,
      for_each (fun merge_result default_variables_path =>
                  variables <~ load_variables default_variables_path ;;
                  Ok (merge_collection_vars merge_result variables)) acc paths
      = Ok merged.
Proof.
  induction paths as [|p paths IH]; intros Hall acc; simpl; [by eexists|].
  pose proof (Hall p ltac:(by left)) as Hp.
  destruct (load_variables p) as [v|e]; [|discriminate]. simpl.
  apply IH. intros q Hq. apply Hall. by right.
Qed.

(** X7: the defaults of a file are loaded in the order of their paths and
    the first file that cannot be loaded ends the merge with its exception;
    the paths after it are not read. *)
Theorem merge_default_variables_first_error (load_variables : string -> result dict)
    (before after : list string) (path : string) (e : exn) :
  (forall p, p ∈ before -> is_ok (load_variables p) = true) ->
  load_variables path = Raise e ->
  merge_default_variables load_variables (before ++ path :: after)%list = Raise e.
Proof.
  intros Hbefore Hpath. unfold merge_default_variables. rewrite for_each_app.
  destruct (merge_default_variables_loaded load_variables before Hbefore [])
    as [merged ->].
  simpl. by rewrite Hpath.
Qed.

Lemma merge_default_variables_first_error_witness :
  merge_default_variables load_sources ["A"; "C"; "B"]
  = Raise (OtherError "C cannot be parsed").
Proof.
  apply (merge_default_variables_first_error load_sources ["A"] ["B"] "C").
  - intros p Hp. apply list_elem_of_singleton in Hp as ->. reflexivity.
  - reflexivity.
Defined.

Lemma map_result_names (default_var_paths : list (string * option (list string)))
    (load_variables : string -> result dict) (configurations : list (string * dict)) :
  forall written,
    map_result (initialize_configuration load_variables default_var_paths) configurations
    = Ok written ->
    map fst written = map fst configurations.
Proof.
  induction configurations as [|[file conf] configurations IH]; simpl; intros written.
  - by intros [= <-].
  - destruct (od_get file default_var_paths) as [[[|p ps]|]|]; simpl; try discriminate.
    + destruct (map_result _ configurations) as [ws|e]; simpl; [|discriminate].
      intros [= <-]. simpl. by rewrite (IH ws).
    + destruct (merge_default_variables load_variables (p :: ps)); simpl; [|discriminate].
      destruct (map_result _ configurations) as [ws|e]; simpl; [|discriminate].
      intros [= <-]. simpl. by rewrite (IH ws).
    + destruct (map_result _ configurations) as [ws|e]; simpl; [|discriminate].
      intros [= <-]. simpl. by rewrite (IH ws).
Qed.

(** X8: when [initialize_variables] ends well, the repository of the
    manager gained exactly one revision, with the message
    [<service>: initial commit], whose files are the file names of the
    default variables, one each and in the order of their first
    declaration; the other paths of the file system are as before.  (The
    commit is the one that the transaction of the repository makes.) *)
Theorem initialize_variables_commit (load_variables : string -> result dict)
    (self : ServiceManager) (fs fs' : filesystem) :
  initialize_variables load_variables self fs = (Ok tt, fs') ->
  exists t h written,
    fs !! _repo self = Some (Dir {| tree := t; history := Some h |}) /\
    map fst written = od_keys (default_var_paths_of self) /\
    fs' = <[_repo self :=
              Dir {| tree := fold_left (fun acc kv => od_set kv.1 kv.2 acc) written t;
                     history :=
                       Some (app h [{| message := _name self ++ ": initial commit";
                                       files := written |}]) |}]> fs.
Proof.
  unfold initialize_variables, validate_open_var_files.
  destruct (fs !! _repo self) as [[|[t [h|]]]|]; try discriminate.
  destruct (map_result _ _) as [written|e] eqn:Hbody; [|discriminate].
  intros [= <-]. exists t, h, written. split; [done|]. split; [|done].
  rewrite (map_result_names _ _ _ _ Hbody), map_map. simpl. apply map_id.
Qed.

Lemma initialize_variables_commit_witness :
  exists t h written,
    (<[ ["hdfs"; "vars"] := Dir {| tree := []; history := Some [] |} ]> ∅ : filesystem)
      !! ["hdfs"; "vars"] = Some (Dir {| tree := t; history := Some h |}) /\
    map fst written = ["hdfs.yml"] /\
    (initialize_variables load_sources
       {| _name := "hdfs"; _repo := ["hdfs"; "vars"];
          _dag := dag_of_collections [("one", collection_A); ("two", collection_B)] |}
       (<[ ["hdfs"; "vars"] := Dir {| tree := []; history := Some [] |} ]> ∅)).2
    = <[ ["hdfs"; "vars"] :=
           Dir {| tree := fold_left (fun acc kv => od_set kv.1 kv.2 acc) written t;
                  history := Some (app h [{| message := "hdfs: initial commit";
                                             files := written |}]) |}]>
        (<[ ["hdfs"; "vars"] := Dir {| tree := []; history := Some [] |} ]> ∅).
Proof.
  apply (initialize_variables_commit load_sources
           {| _name := "hdfs"; _repo := ["hdfs"; "vars"];
              _dag := dag_of_collections [("one", collection_A); ("two", collection_B)] |}
           (<[ ["hdfs"; "vars"] := Dir {| tree := []; history := Some [] |} ]> ∅)).
  apply pair_of_fst. vm_compute. reflexivity.
Defined.

(** ** The bootstrap, continued *)

Lemma node_kept_refl (n : node) : node_kept n n.
Proof.
  destruct n as [|[t [h|]]]; simpl; [done| |done]. exists []. by rewrite app_nil_r.
Qed.

Lemma node_kept_trans (n1 n2 n3 : node) :
  node_kept n1 n2 -> node_kept n2 n3 -> node_kept n1 n3.
Proof.
  destruct n1 as [|[t1 h1]], n2 as [|[t2 h2]], n3 as [|[t3 h3]]; simpl; try done.
  destruct h1 as [h1|]; [|done]. intros [l1 ->] [l2 ->].
  exists (l1 ++ l2)%list. by rewrite app_assoc.
Qed.

Lemma fs_kept_refl (fs : filesystem) : fs_kept fs fs.
Proof. intros q n Hq. exists n. split; [done|apply node_kept_refl]. Qed.

Lemma fs_kept_trans (fs1 fs2 fs3 : filesystem) :
  fs_kept fs1 fs2 -> fs_kept fs2 fs3 -> fs_kept fs1 fs3.
Proof.
  intros H12 H23 q n1 Hq. destruct (H12 q n1 Hq) as (n2 & Hq2 & Hk12).
  destruct (H23 q n2 Hq2) as (n3 & Hq3 & Hk23). exists n3.
  split; [done|]. by eapply node_kept_trans.
Qed.

Lemma fs_kept_insert (fs : filesystem) (p : Path) (n' : node) :
  (forall n, fs !! p = Some n -> node_kept n n') -> fs_kept fs (<[p := n']> fs).
Proof.
  intros Hp q n Hq. destruct (decide (q = p)) as [->|Hne].
  - exists n'. rewrite lookup_insert_eq. split; [done|by apply Hp].
  - exists n. rewrite lookup_insert_ne by done. split; [done|apply node_kept_refl].
Qed.

Lemma ensure_service_directory_kept (p : Path) (fs fs' : filesystem) (r : result unit) :
  ensure_service_directory p fs = (r, fs') -> fs_kept fs fs'.
Proof.
  intros Hrun q n Hq.
  destruct (ensure_service_directory_lookup _ _ _ _ Hrun q) as [E|(Hnone & _)];
    [|congruence].
  exists n. rewrite E. split; [done|apply node_kept_refl].
Qed.

Lemma GitRepository_init_kept (p : Path) (fs fs' : filesystem) (r : result Path) :
  GitRepository_init p fs = (r, fs') -> fs_kept fs fs'.
Proof.
  unfold GitRepository_init. destruct (fs !! p) as [[|[t [h|]]]|] eqn:Hp;
    intros [= <- <-]; try apply fs_kept_refl.
  apply fs_kept_insert. intros n Hn. rewrite Hp in Hn. by injection Hn as <-.
Qed.

Lemma initialize_variables_kept (load_variables : string -> result dict)
    (self : ServiceManager) (fs fs' : filesystem) (r : result unit) :
  initialize_variables load_variables self fs = (r, fs') -> fs_kept fs fs'.
Proof.
  unfold initialize_variables, validate_open_var_files.
  destruct (fs !! _repo self) as [[|[t [h|]]]|] eqn:Hp;
    try (intros [= <- <-]; apply fs_kept_refl).
  destruct (map_result _ _); intros [= <- <-]; [|apply fs_kept_refl].
  apply fs_kept_insert. intros n Hn. rewrite Hp in Hn. injection Hn as <-.
  simpl. by eexists.
Qed.

Lemma bootstrap_service_kept (load_variables : string -> result dict) (dag : Dag)
    (root : Path) (sms : list (string * ServiceManager)) (s : string) (fs fs' : filesystem)
    (r : result (list (string * ServiceManager))) :
  bootstrap_service load_variables dag root sms s fs = (r, fs') -> fs_kept fs fs'.
Proof.
  rewrite bootstrap_service_unfold.
  destruct (ensure_service_directory (s :: root) fs) as [r1 fs1] eqn:H1.
  apply ensure_service_directory_kept in H1.
  destruct r1 as [[]|e]; [|by intros [= <- <-]].
  destruct (GitRepository_init (s :: root) fs1) as [r2 fs2] eqn:H2.
  apply GitRepository_init_kept in H2. pose proof (fs_kept_trans _ _ _ H1 H2) as H12.
  destruct r2 as [repo|e]; [|by intros [= <- <-]].
  destruct (ServiceManager_init s repo dag) as [sm|e]; [|by intros [= <- <-]].
  destruct (version sm fs2) as [r4 fs3] eqn:H4. apply current_version_state in H4 as ->.
  destruct r4 as [v|e]; [by intros [= <- <-]|].
  destruct e; try (by intros [= <- <-]).
  destruct (initialize_variables load_variables sm fs2) as [r5 fs4] eqn:H5.
  apply initialize_variables_kept in H5. pose proof (fs_kept_trans _ _ _ H12 H5).
  destruct r5 as [[]|e]; by intros [= <- <-].
Qed.

Lemma bootstrap_service_ok_length (load_variables : string -> result dict) (dag : Dag)
    (root : Path) (sms sms' : list (string * ServiceManager)) (s : string)
    (fs fs' : filesystem) :
  bootstrap_service load_variables dag root sms s fs = (Ok sms', fs') ->
  (String.length s <= 15)%nat.
Proof.
  rewrite bootstrap_service_unfold.
  destruct (ensure_service_directory (s :: root) fs) as [[[]|e] fs1]; [|discriminate].
  destruct (GitRepository_init (s :: root) fs1) as [[repo|e] fs2]; [|discriminate].
  unfold ServiceManager_init, SERVICE_NAME_MAX_LENGTH.
  destruct (15 <? String.length s)%nat eqn:Hlen; [discriminate|].
  intros _. by apply Nat.ltb_ge.
Qed.

Lemma ServiceManager_init_short (s : string) (repo : Path) (dag : Dag) :
  (String.length s <= 15)%nat ->
  ServiceManager_init s repo dag = Ok {| _name := s; _repo := repo; _dag := dag |}.
Proof.
  intros Hlen. unfold ServiceManager_init, SERVICE_NAME_MAX_LENGTH.
  apply Nat.ltb_ge in Hlen. by rewrite Hlen.
Qed.

Section BootstrapLoopMore.
Variable load_variables : string -> result dict.
Variable dag : Dag.
Variable root : Path.

Local Abbreviation body := (bootstrap_service load_variables dag root).

Lemma loop_kept (l : list string) :
  forall (sms : list (string * ServiceManager)) (fs : filesystem),
    fs_kept fs (io_for_each body sms l fs).2.
Proof.
  induction l as [|a l IH]; intros sms fs; [apply fs_kept_refl|].
  simpl. unfold io_bind. destruct (body sms a fs) as [r fs1] eqn:Hbody.
  apply bootstrap_service_kept in Hbody.
  destruct r as [sms1|e]; [|done]. eapply fs_kept_trans; [done|apply IH].
Qed.

(** When every service of the list has a revision and a short name, the
    loop only fills the mapping. *)
Lemma loop_versioned_noop (l : list string) :
  forall (sms : list (string * ServiceManager)) (fs : filesystem),
    (forall s, s ∈ l -> has_version fs (s :: root) = true /\ (String.length s <= 15)%nat) ->
    io_for_each body sms l fs = (Ok (managers_of dag root l sms), fs).
Proof.
  induction l as [|a l IH]; intros sms fs Hall; [done|].
  simpl. unfold io_bind. destruct (Hall a ltac:(by left)) as [Hv Hlen].
  rewrite (bootstrap_service_versioned _ _ _ _ _ _ Hv), (ServiceManager_init_short _ _ _ Hlen).
  apply IH. intros s Hs. apply Hall. by right.
Qed.

(** What a loop that ends well leaves: the mapping of the managers, short
    names and a revision for every service. *)
Lemma loop_ok_summary (l : list string) :
  forall (sms sms' : list (string * ServiceManager)) (fs fs' : filesystem),
    io_for_each body sms l fs = (Ok sms', fs') ->
    sms' = managers_of dag root l sms /\
    forall s, s ∈ l -> has_version fs' (s :: root) = true /\ (String.length s <= 15)%nat.
Proof.
  induction l as [|a l IH]; intros sms sms' fs fs' Hrun.
  - injection Hrun as <- <-. split; [done|]. intros s Hs. by apply elem_of_nil in Hs.
  - simpl in Hrun. unfold io_bind in Hrun.
    destruct (body sms a fs) as [[sms1|e] fs1] eqn:Hbody; [|discriminate].
    destruct (bootstrap_service_ok _ _ _ _ _ _ _ _ Hbody) as [-> Hv].
    pose proof (bootstrap_service_ok_length _ _ _ _ _ _ _ _ Hbody) as Hlen.
    destruct (IH _ _ _ _ Hrun) as [-> Hrest]. split; [done|].
    intros s Hs. apply elem_of_cons in Hs as [->|Hs]; [|by apply Hrest].
    split; [|done].
    pose proof (loop_keeps_versioned load_variables dag root a l
                  (od_set a (manager_of dag root a) sms) fs1 Hv) as Hkeep.
    rewrite Hrun in Hkeep. simpl in Hkeep. by rewrite (has_version_lookup _ _ _ Hkeep).
Qed.

Lemma managers_of_get (l : list string) (name : string) :
  forall sms : list (string * ServiceManager),
    od_get name (managers_of dag root l sms)
    = if bool_decide (name ∈ l) then Some (manager_of dag root name) else od_get name sms.
Proof.
  unfold managers_of. induction l as [|a l IH]; intros sms; simpl; [done|].
  rewrite IH. destruct (decide (a = name)) as [->|Hne].
  - rewrite od_get_set_eq, (bool_decide_eq_true_2 (name ∈ name :: l)) by (by left).
    by case_bool_decide.
  - rewrite od_get_set_ne by done.
    destruct (bool_decide (name ∈ l)) eqn:Hl.
    + apply bool_decide_eq_true in Hl. by rewrite bool_decide_eq_true_2 by (by right).
    + apply bool_decide_eq_false in Hl. rewrite bool_decide_eq_false_2; [done|].
      rewrite elem_of_cons. intros [?|?]; congruence.
Qed.

Lemma managers_of_NoDup (l : list string) :
  forall sms : list (string * ServiceManager),
    NoDup (od_keys sms) -> NoDup (od_keys (managers_of dag root l sms)).
Proof.
  unfold managers_of. induction l as [|a l IH]; intros sms Hnd; simpl; [done|].
  apply IH. by apply od_set_NoDup.
Qed.

End BootstrapLoopMore.

(** X9: the bootstrap is idempotent: run again on the file system that a
    bootstrap that ended well left, it returns the same mapping and leaves
    the file system as it is (no directory is made, no variables are
    initialised, no revision is added). *)
Theorem bootstrap_idempotent (load_variables : string -> result dict) (dag : Dag)
    (root : Path) (fs fs' : filesystem) (sms : list (string * ServiceManager)) :
  initialize_service_managers load_variables dag root fs = (Ok sms, fs') ->
  initialize_service_managers load_variables dag root fs' = (Ok sms, fs').
Proof.
  unfold initialize_service_managers. intros Hrun.
  destruct (loop_ok_summary _ _ _ _ _ _ _ _ Hrun) as [-> Hall].
  by apply loop_versioned_noop.
Qed.

Lemma bootstrap_idempotent_witness :
  initialize_service_managers load_sources example_dag ["vars"]
    (initialize_service_managers load_sources example_dag ["vars"] example_fs).2
  = (Ok [("hdfs", manager_of example_dag ["vars"] "hdfs");
         ("yarn", manager_of example_dag ["vars"] "yarn")],
     (initialize_service_managers load_sources example_dag ["vars"] example_fs).2).
Proof.
  apply (bootstrap_idempotent load_sources example_dag ["vars"] example_fs).
  apply pair_of_fst. vm_compute. reflexivity.
Defined.

(** X10: the mapping that a bootstrap that ended well returns has one key
    for every service of the graph and no other, each key once, and holds
    under the name of a service the manager of that name, bound to the
    directory of the service and to the graph. *)
Theorem bootstrap_mapping (load_variables : string -> result dict) (dag : Dag)
    (root : Path) (fs fs' : filesystem) (sms : list (string * ServiceManager)) :
  initialize_service_managers load_variables dag root fs = (Ok sms, fs') ->
  NoDup (od_keys sms)
  /\ (forall name, name ∈ od_keys sms <-> name ∈ services dag)
  /\ (forall name, name ∈ services dag ->
                   od_get name sms
                   = Some {| _name := name; _repo := name :: root; _dag := dag |}).
Proof.
  unfold initialize_service_managers. intros Hrun.
  destruct (loop_ok_summary _ _ _ _ _ _ _ _ Hrun) as [-> _].
  split; [apply managers_of_NoDup; constructor|]. split.
  - intros name. rewrite <- od_get_is_Some, managers_of_get.
    case_bool_decide as Hin; simpl; [split; [done|by eexists]|].
    split; [by intros [? ?]|done].
  - intros name Hin. rewrite managers_of_get. by rewrite bool_decide_eq_true_2.
Qed.

Lemma bootstrap_mapping_witness :
  NoDup (od_keys [("hdfs", manager_of example_dag ["vars"] "hdfs");
                  ("yarn", manager_of example_dag ["vars"] "yarn")])
  /\ (forall name, name ∈ od_keys [("hdfs", manager_of example_dag ["vars"] "hdfs");
                                   ("yarn", manager_of example_dag ["vars"] "yarn")]
                   <-> name ∈ services example_dag)
  /\ (forall name, name ∈ services example_dag ->
                   od_get name [("hdfs", manager_of example_dag ["vars"] "hdfs");
                                ("yarn", manager_of example_dag ["vars"] "yarn")]
                   = Some {| _name := name; _repo := [name; "vars"]; _dag := example_dag |}).
Proof.
  apply (bootstrap_mapping load_sources example_dag ["vars"] example_fs
           (initialize_service_managers load_sources example_dag ["vars"] example_fs).2).
  apply pair_of_fst. vm_compute. reflexivity.
Defined.

(** X11: whatever its outcome, the bootstrap removes nothing: an entry of
    the file system is still there afterwards, a regular file is still a
    regular file, a directory is still a directory, and the revisions that
    a repository had are still the first revisions of its history. *)
Theorem bootstrap_keeps_entries (load_variables : string -> result dict) (dag : Dag)
    (root : Path) (fs : filesystem) (q : Path) (n : node) :
  fs !! q = Some n ->
  exists n',
    (initialize_service_managers load_variables dag root fs).2 !! q = Some n' /\
    node_kept n n'.
Proof.
  intros Hq. by apply (loop_kept load_variables dag root (services dag) [] fs q n).
Qed.

Lemma bootstrap_keeps_entries_witness :
  exists n',
    (initialize_service_managers load_sources hive_dag ["vars"] example_fs).2
      !! ["hive"; "vars"] = Some n'
    /\ node_kept RegularFile n'.
Proof.
  apply (bootstrap_keeps_entries load_sources hive_dag ["vars"] example_fs).
  reflexivity.
Defined.

(** X12: the length of the name is checked after the directory of the
    service was made and its repository initialised: for a service name of
    more than 15 characters whose path is free, the turn of the service
    fails with the [ValueError] of the name and leaves the new directory,
    with a repository without revision, behind. *)
Theorem bootstrap_service_long_name (load_variables : string -> result dict) (dag : Dag)
    (root : Path) (sms : list (string * ServiceManager)) (service : string)
    (fs : filesystem) :
  (15 < String.length service)%nat ->
  fs !! (service :: root) = None ->
  no_file_above (service :: root) fs = true ->
  exists fs',
    bootstrap_service load_variables dag root sms service fs
    = (Raise (ValueError (service ++ " is longer than 15")), fs') /\
    fs' !! (service :: root) = Some (Dir {| tree := []; history := Some [] |}).
Proof.
  intros Hlen Hp Habove. rewrite bootstrap_service_unfold.
  destruct (makedirs_succeeds (service :: root) fs) as [fs1 Hmk]; [by rewrite Hp|done|].
  assert (He : ensure_service_directory (service :: root) fs = (Ok tt, fs1)).
  { unfold ensure_service_directory, try_except, mkdir_parents. by rewrite Hp, Hmk. }
  rewrite He. assert (Hne : service :: root <> []) by done.
  unfold GitRepository_init. rewrite (makedirs_new _ _ _ Hne Hp Hmk). simpl.
  unfold ServiceManager_init, SERVICE_NAME_MAX_LENGTH.
  apply Nat.ltb_lt in Hlen. rewrite Hlen.
  eexists. split; [done|]. apply lookup_insert_eq.
Qed.

Lemma bootstrap_service_long_name_witness :
  exists fs',
    bootstrap_service load_sources example_dag ["vars"] [] "hdfs_federation_" example_fs
    = (Raise (ValueError "hdfs_federation_ is longer than 15"), fs') /\
    fs' !! ["hdfs_federation_"; "vars"] = Some (Dir {| tree := []; history := Some [] |}).
Proof.
  apply (bootstrap_service_long_name load_sources example_dag ["vars"] []
           "hdfs_federation_" example_fs).
  - simpl. lia.
  - reflexivity.
  - reflexivity.
Defined.

(** ** Loading the service managers *)

Section LoadOnlyFacts.
Variable GitRepository : Path -> result Path.
Variable dag : Dag.
Variable root : Path.

Local Abbreviation load := (load_service GitRepository dag root).

Lemma load_service_ok_iff (sms : list (string * ServiceManager)) (s : string) :
  is_ok (load sms s) = true
  <-> is_ok (GitRepository (s :: root)) = true /\ (String.length s <= 15)%nat.
Proof.
  unfold load_service, ServiceManager_init, SERVICE_NAME_MAX_LENGTH.
  destruct (GitRepository (s :: root)) as [repo|e]; simpl; [|by split; [|intros []]].
  destruct (15 <? String.length s)%nat eqn:Hlen; simpl.
  - apply Nat.ltb_lt in Hlen. split; [done|]. intros [_ ?]. lia.
  - apply Nat.ltb_ge in Hlen. by split.
Qed.

Lemma load_loop_ok_iff (l : list string) :
  forall sms : list (string * ServiceManager),
    is_ok (for_each load sms l) = true
    <-> forall s, s ∈ l ->
          is_ok (GitRepository (s :: root)) = true /\ (String.length s <= 15)%nat.
Proof.
  induction l as [|a l IH]; intros sms; simpl.
  - split; [|done]. intros _ s Hs. by apply elem_of_nil in Hs.
  - pose proof (load_service_ok_iff sms a) as Ha.
    destruct (load sms a) as [sms1|e]; simpl in *.
    + rewrite IH. split.
      * intros Hl s Hs. apply elem_of_cons in Hs as [->|Hs]; [by apply Ha|by apply Hl].
      * intros Hall s Hs. apply Hall. by right.
    + split; [done|]. intros Hall. apply Ha, Hall. by left.
Qed.

Lemma load_loop_get (l : list string) :
  forall sms sms' : list (string * ServiceManager),
    for_each load sms l = Ok sms' ->
    (NoDup (od_keys sms) -> NoDup (od_keys sms')) /\
    forall name,
      (name ∈ l ->
       exists repo, GitRepository (name :: root) = Ok repo /\
                    od_get name sms' = Some {| _name := name; _repo := repo; _dag := dag |})
      /\ (name ∉ l -> od_get name sms' = od_get name sms).
Proof.
  induction l as [|a l IH]; intros sms sms' Hrun; simpl in Hrun.
  - injection Hrun as <-. split; [done|]. intros name.
    split; [intros H; by apply elem_of_nil in H|done].
  - destruct (load sms a) as [sms1|e] eqn:Ha; simpl in Hrun; [|discriminate].
    destruct (IH _ _ Hrun) as [Hnd Hget].
    revert Ha. unfold load_service.
    destruct (GitRepository (a :: root)) as [repo|e] eqn:Hrepo; simpl; [|discriminate].
    destruct (ServiceManager_init a repo dag) as [sm|e] eqn:Hsm; simpl; [|discriminate].
    apply ServiceManager_init_ok in Hsm as ->. intros [= <-].
    split; [intros H; by apply Hnd, od_set_NoDup|].
    intros name. destruct (Hget name) as [Hin Hout]. split.
    + intros Hname. destruct (decide (name ∈ l)) as [Hl|Hl]; [by apply Hin|].
      apply elem_of_cons in Hname as [->|?]; [|done].
      exists repo. split; [done|]. by rewrite (Hout Hl), od_get_set_eq.
    + intros Hname. apply not_elem_of_cons in Hname as [Hne Hl].
      by rewrite (Hout Hl), od_get_set_ne.
Qed.

Lemma load_loop_managers (l : list string) :
  forall sms : list (string * ServiceManager),
    (forall s, s ∈ l ->
       GitRepository (s :: root) = Ok (s :: root) /\ (String.length s <= 15)%nat) ->
    for_each load sms l = Ok (managers_of dag root l sms).
Proof.
  induction l as [|a l IH]; intros sms Hall; simpl; [done|].
  destruct (Hall a ltac:(by left)) as [Hrepo Hlen]. unfold load_service at 1.
  rewrite Hrepo. simpl. rewrite (ServiceManager_init_short _ _ _ Hlen). simpl.
  apply IH. intros s Hs. apply Hall. by right.
Qed.

End LoadOnlyFacts.

(** X13: [get_service_managers] returns exactly when the repository of
    every service of the graph can be opened and no service name is longer
    than 15 characters; one service that fails either test makes the whole
    call fail. *)
Theorem get_service_managers_ok_iff (GitRepository : Path -> result Path) (dag : Dag)
    (root : Path) :
  is_ok (get_service_managers GitRepository dag root) = true
  <-> forall s, s ∈ services dag ->
        is_ok (GitRepository (s :: root)) = true /\ (String.length s <= 15)%nat.
Proof. apply load_loop_ok_iff. Qed.

(** X14: the mapping that [get_service_managers] returns has one key for
    every service of the graph and no other, each key once, and holds under
    the name of a service a manager of that name, bound to the graph and
    to the repository object made for the directory of the service. *)
Theorem get_service_managers_mapping (GitRepository : Path -> result Path) (dag : Dag)
    (root : Path) (sms : list (string * ServiceManager)) :
  get_service_managers GitRepository dag root = Ok sms ->
  NoDup (od_keys sms)
  /\ (forall name, name ∈ od_keys sms <-> name ∈ services dag)
  /\ (forall name, name ∈ services dag ->
        exists repo,
          GitRepository (name :: root) = Ok repo /\
          od_get name sms = Some {| _name := name; _repo := repo; _dag := dag |}).
Proof.
  unfold get_service_managers. intros Hrun.
  destruct (load_loop_get _ _ _ _ _ _ Hrun) as [Hnd Hget].
  split; [apply Hnd; constructor|]. split.
  - intros name. rewrite <- od_get_is_Some. destruct (Hget name) as [Hin Hout].
    destruct (decide (name ∈ services dag)) as [Hs|Hs].
    + destruct (Hin Hs) as (repo & _ & ->). split; [done|by eexists].
    + rewrite (Hout Hs). simpl. split; [by intros [? ?]|done].
  - intros name Hs. by apply Hget.
Qed.

Lemma get_service_managers_mapping_witness :
  NoDup (od_keys [("hdfs", manager_of example_dag ["vars"] "hdfs");
                  ("yarn", manager_of example_dag ["vars"] "yarn")])
  /\ (forall name, name ∈ od_keys [("hdfs", manager_of example_dag ["vars"] "hdfs");
                                   ("yarn", manager_of example_dag ["vars"] "yarn")]
                   <-> name ∈ services example_dag)
  /\ (forall name, name ∈ services example_dag ->
        exists repo,
          Ok (name :: ["vars"]) = Ok repo /\
          od_get name [("hdfs", manager_of example_dag ["vars"] "hdfs");
                       ("yarn", manager_of example_dag ["vars"] "yarn")]
          = Some {| _name := name; _repo := repo; _dag := example_dag |}).
Proof.
  apply (get_service_managers_mapping (fun p => Ok p) example_dag ["vars"]).
  reflexivity.
Defined.

(** X15: after a bootstrap that ended well, [get_service_managers] gives
    the same mapping as the bootstrap did, provided the repository object
    made for the directory of a service is the one the bootstrap used. *)
Theorem get_service_managers_after_bootstrap (load_variables : string -> result dict)
    (GitRepository : Path -> result Path) (dag : Dag) (root : Path)
    (fs fs' : filesystem) (sms : list (string * ServiceManager)) :
  initialize_service_managers load_variables dag root fs = (Ok sms, fs') ->
  (forall s, s ∈ services dag -> GitRepository (s :: root) = Ok (s :: root)) ->
  get_service_managers GitRepository dag root = Ok sms.
Proof.
  unfold initialize_service_managers, get_service_managers. intros Hrun Hrepo.
  destruct (loop_ok_summary _ _ _ _ _ _ _ _ Hrun) as [-> Hall].
  apply load_loop_managers. intros s Hs. split; [by apply Hrepo|by apply Hall].
Qed.

Lemma get_service_managers_after_bootstrap_witness :
  get_service_managers (fun p => Ok p) example_dag ["vars"]
  = Ok [("hdfs", manager_of example_dag ["vars"] "hdfs");
        ("yarn", manager_of example_dag ["vars"] "yarn")].
Proof.
  apply (get_service_managers_after_bootstrap load_sources (fun p => Ok p) example_dag
           ["vars"] example_fs
           (initialize_service_managers load_sources example_dag ["vars"] example_fs).2).
  - apply pair_of_fst. vm_compute. reflexivity.
  - reflexivity.
Defined.

(** ** The [init] command, continued *)

Lemma report_lines (fs : filesystem) (sms : list (string * ServiceManager)) :
  (forall name sm, (name, sm) ∈ sms -> has_version fs (_repo sm) = true) ->
  forall out : list line,
    exists lines,
      io_for_each report_service out sms fs = (Ok (out ++ lines)%list, fs) /\
      map line_name lines = od_keys sms /\
      Forall (fun l => exists name v, l = VersionLine name (S v)) lines.
Proof.
  induction sms as [|[name sm] sms IH]; intros Hall out; simpl.
  - exists []. rewrite app_nil_r. by split; [|split; [|constructor]].
  - unfold io_bind, try_except.
    destruct (version_of_versioned sm fs) as [v Hv]; [apply (Hall name); by left|].
    rewrite Hv. simpl.
    destruct (IH (fun n m H => Hall n m (list_elem_of_further _ _ _ H))
                 (out ++ [VersionLine name (S v)])%list) as (lines & -> & Hnames & Hall').
    exists (VersionLine name (S v) :: lines). rewrite <- app_assoc. simpl.
    split; [done|]. split; [by rewrite Hnames|]. constructor; [by eexists _, _|done].
Qed.

(** X16: [init] fails exactly as the bootstrap does, with its exception and
    the file system it left; when the bootstrap ends well, [init] changes
    nothing more and prints one line for every service manager, in the
    order of the mapping, each with the name of the service and a
    version. *)
Theorem init_outcome (load_variables : string -> result dict) (dag : Dag) (vars : Path)
    (fs : filesystem) :
  match initialize_service_managers load_variables dag vars fs with
  | (Raise e, fs') => init load_variables dag vars fs = (Raise e, fs')
  | (Ok sms, fs') =>
      exists lines,
        init load_variables dag vars fs = (Ok lines, fs') /\
        map line_name lines = od_keys sms /\
        Forall (fun l => exists name v, l = VersionLine name (S v)) lines
  end.
Proof.
  unfold init, io_bind.
  destruct (initialize_service_managers load_variables dag vars fs) as [[sms|e] fs'] eqn:Hrun;
    [|done].
  assert (Hinv : managers_versioned dag vars sms fs').
  { apply (loop_managers_versioned load_variables dag vars (services dag) [] sms fs fs');
      [|done]. intros name sm H. by apply elem_of_nil in H. }
  destruct (report_lines fs' sms) with (out := @nil line) as (lines & Hout & Hnames & Hall).
  { intros name sm Hin. by destruct (Hinv name sm Hin) as [-> Hv]. }
  exists lines. by rewrite Hout.
Qed.
